(** * The matching game of [js/app.js]: cards, deck, scoreboard and game

    A shallow embedding of the four classes of [js/app.js] ([Card], [Deck],
    [Scoreboard], [Game]) together with the part of the browser they talk
    to: the card elements of the page with their CSS classes and click
    handlers, the timers started with [setTimeout] and [setInterval], and
    the random numbers drawn by [Deck.shuffle].

    Conventions.
    - A method [m] of class [C] is the function [C_m].
    - JavaScript strings are [string]s; the counters of the program
      ([moves], [matches], [stars]) are natural numbers.
    - A jQuery reference to a card element is the index of the element in
      the store [elems] of the page; the children of [.deck], which are the
      elements selected by [$('.card')], are listed in [deckChildren].
    - Time is a clock in milliseconds; each timer carries the instant at
      which it is due.
    - A click on a card is delivered with the [li] of the card as its
      target. *)

From Stdlib Require Import Ascii String.
From stdpp Require Import base numbers list strings.

Local Open Scope string_scope.
Local Open Scope list_scope.
Local Open Scope nat_scope.

(** ** Strings *)

(** The double quote character that delimits an HTML attribute value. *)
Definition dquote : ascii := ascii_of_nat 34.

Definition dq : string := String dquote EmptyString.

(** [s.substr(start)] for a non-negative [start]: the characters of [s]
    from index [start] to the end (the empty string when [start] is beyond
    the end). *)
Fixpoint substr (start : nat) (s : string) : string :=
  match start, s with
  | 0, _ => s
  | S n, EmptyString => EmptyString
  | S n, String _ r => substr n r
  end.

(** ** The page *)

(** A card element of the page: the class attribute of its [i] child, the
    classes [open], [show] and [match] of the [li] itself (which always has
    the class [card]), and the number of click handlers bound to it. *)
Record Elem : Type := mkElem {
  iconClass : string;
  hasOpen : bool;
  hasShow : bool;
  hasMatch : bool;
  clickHandlers : nat
}.

(** The page: the store of all card elements ever created, the elements
    that are at present children of [.deck], the number of stars in
    [.stars], the texts of [.moves] and [.timeTaken], and whether the modal
    [#myModal] is displayed. *)
Record Page : Type := mkPage {
  elems : list Elem;
  deckChildren : list nat;
  starsShown : nat;
  movesText : nat;
  timeTakenText : nat;
  modalShown : bool
}.

Definition set_elems (f : list Elem → list Elem) (p : Page) : Page :=
  mkPage (f (elems p)) (deckChildren p) (starsShown p) (movesText p)
         (timeTakenText p) (modalShown p).

(** [addClass('open show')] *)
Definition addClass_open_show (el : Elem) : Elem :=
  mkElem (iconClass el) true true (hasMatch el) (clickHandlers el).

(** [removeClass('open show')] *)
Definition removeClass_open_show (el : Elem) : Elem :=
  mkElem (iconClass el) false false (hasMatch el) (clickHandlers el).

(** [addClass('match')] *)
Definition addClass_match (el : Elem) : Elem :=
  mkElem (iconClass el) (hasOpen el) (hasShow el) true (clickHandlers el).

(** [$('.card').off('click')]: every child of [.deck] loses its handlers. *)
Definition off_click (el : Elem) : Elem :=
  mkElem (iconClass el) (hasOpen el) (hasShow el) (hasMatch el) 0.

(** [.on('click', handler)] binds one more handler. *)
Definition on_click (el : Elem) : Elem :=
  mkElem (iconClass el) (hasOpen el) (hasShow el) (hasMatch el)
         (S (clickHandlers el)).

(** [.not('.match').on('click', handler)] *)
Definition on_click_not_match (el : Elem) : Elem :=
  if hasMatch el then el else on_click el.

(** Applies [f] to each of the elements [ids] of the store. *)
Definition for_each_elem (f : Elem → Elem) (ids : list nat)
    (es : list Elem) : list Elem :=
  foldl (λ acc e, alter f e acc) es ids.

(** [$('.card')] followed by a method that acts on every selected
    element. *)
Definition each_card (f : Elem → Elem) (p : Page) : Page :=
  set_elems (for_each_elem f (deckChildren p)) p.

(** Markup handed to [append] goes through the HTML tokenizer.  The markup
    of a card starts with an [li] of class [card] whose first child is an
    [i] element ([card_markup_prefix], which ends with the opening quote of
    the class attribute of the [i]); the value of that attribute is the
    text up to the next double quote.  Character references ([&...;])
    and the characters the tokenizer rewrites (carriage return, NUL) are
    not interpreted here. *)
Definition card_markup_prefix : string :=
  "<li class=" +:+ dq +:+ "card" +:+ dq +:+ "><i class=" +:+ dq.

Fixpoint read_attr_value (s : string) : string :=
  match s with
  | EmptyString => EmptyString
  | String c r =>
      if Ascii.eqb c dquote then EmptyString else String c (read_attr_value r)
  end.

Definition child_class_of_markup (html : string) : string :=
  read_attr_value (substr (String.length card_markup_prefix) html).

(** The element the parser builds from the markup of a card. *)
Definition elem_of_markup (html : string) : Elem :=
  {| iconClass := child_class_of_markup html;
     hasOpen := false; hasShow := false; hasMatch := false;
     clickHandlers := 0 |}.

(** [deckElem.empty()] *)
Definition deck_empty (p : Page) : Page :=
  mkPage (elems p) [] (starsShown p) (movesText p) (timeTakenText p)
         (modalShown p).

(** [deckElem.append(html)]: the new element gets the next index of the
    store and becomes the last child of [.deck]. *)
Definition deck_append (html : string) (p : Page) : Page :=
  mkPage (elems p ++ [elem_of_markup html])
         (deckChildren p ++ [length (elems p)])
         (starsShown p) (movesText p) (timeTakenText p) (modalShown p).

(** [starsElem.empty()] and the loop that appends [newVal] stars. *)
Definition set_stars (newVal : nat) (p : Page) : Page :=
  mkPage (elems p) (deckChildren p) newVal (movesText p) (timeTakenText p)
         (modalShown p).

(** [$('.moves').text(moves)] *)
Definition set_movesText (m : nat) (p : Page) : Page :=
  mkPage (elems p) (deckChildren p) (starsShown p) m (timeTakenText p)
         (modalShown p).

(** [$('.timeTaken').text(timeTaken)] *)
Definition set_timeTakenText (t : nat) (p : Page) : Page :=
  mkPage (elems p) (deckChildren p) (starsShown p) (movesText p) t
         (modalShown p).

(** [finalScoreModal.toggle()] *)
Definition toggle_modal (p : Page) : Page :=
  mkPage (elems p) (deckChildren p) (starsShown p) (movesText p)
         (timeTakenText p) (negb (modalShown p)).

(** ** Class Card: the object and the methods that need no timer *)

(** A [Card] object: its [type], and the reference [elem] to its page
    element, which only the cards made by [fromElem] have. *)
Record Card : Type := mkCard { type : string; elem : option nat }.

(** [constructor(type)] *)
Definition Card_new (ty : string) : Card := {| type := ty; elem := None |}.

(** [toHtml()] *)
Definition Card_toHtml (c : Card) : string :=
  "<li class=" +:+ dq +:+ "card" +:+ dq +:+ "><i class=" +:+ dq +:+ "fa fa-"
    +:+ type c +:+ dq +:+ "></i></li>".

(** [isEqual(card)] *)
Definition Card_isEqual (c card : Card) : bool :=
  bool_decide (type c = type card).

(** [lock()]: [this.elem && this.elem.addClass('match').removeClass('open show')] *)
Definition Card_lock (c : Card) (p : Page) : Page :=
  match elem c with
  | Some e => set_elems (alter (λ el, removeClass_open_show (addClass_match el)) e) p
  | None => p
  end.

(** The function that [hide()] hands to [setTimeout]:
    [this.elem && this.elem.removeClass('open show')] *)
Definition Card_hide_callback (c : Card) (p : Page) : Page :=
  match elem c with
  | Some e => set_elems (alter removeClass_open_show e) p
  | None => p
  end.

(** The function that [show()] hands to [setTimeout]:
    [this.elem && this.elem.addClass('open show')] *)
Definition Card_show_callback (c : Card) (p : Page) : Page :=
  match elem c with
  | Some e => set_elems (alter addClass_open_show e) p
  | None => p
  end.

(** [Card.determineType(cardElem)]:
    [cardElem.children().attr('class').substr(6)] *)
Definition Card_determineType (cardElem : Elem) : string :=
  substr 6 (iconClass cardElem).

(** [Card.fromElem(cardElem)]; [target] is the reference to [cardElem]. *)
Definition Card_fromElem (target : nat) (cardElem : Elem) : Card :=
  {| type := Card_determineType cardElem; elem := Some target |}.

(** ** Class Deck *)

Record Deck : Type := mkDeck { cardTypeCount : nat; cards : list Card }.

(** [constructor(cardTypes)]: the [forEach] loop pushes two cards per
    type. *)
Definition push_pair (cs : list Card) (cardType : string) : list Card :=
  (cs ++ [Card_new cardType]) ++ [Card_new cardType].

Definition Deck_new (cardTypes : list string) : Deck :=
  {| cardTypeCount := length cardTypes;
     cards := foldl push_pair [] cardTypes |}.

Definition Deck_getCardTypeCount (d : Deck) : nat := cardTypeCount d.

(** The three assignments that exchange [cards[currentIndex]] and
    [cards[randomIndex]].  Both indices are inside the array whenever the
    loop of [shuffle] runs (lemma [shuffle_swap_in_range]); the last branch
    is never taken there. *)
Definition swap (currentIndex randomIndex : nat) (cs : list Card) : list Card :=
  match cs !! currentIndex, cs !! randomIndex with
  | Some temporaryValue, Some other =>
      <[randomIndex := temporaryValue]> (<[currentIndex := other]> cs)
  | _, _ => cs
  end.

(** [Math.floor(Math.random() * currentIndex)]: [Math.random()] lies in
    [0, 1), so the result is one of [0 .. currentIndex - 1], each of them
    possible.  The draw is modelled by a natural number [r] reduced modulo
    [currentIndex]. *)
Definition random_index (r currentIndex : nat) : nat := r mod currentIndex.

(** The [while (currentIndex !== 0)] loop; [rnd k] is the [k]-th random
    draw of this call of [shuffle]. *)
Fixpoint shuffle_loop (rnd : nat → nat) (k : nat) (currentIndex : nat)
    (cs : list Card) : list Card :=
  match currentIndex with
  | 0 => cs
  | S currentIndex' =>
      let randomIndex := random_index (rnd k) currentIndex in
      shuffle_loop rnd (S k) currentIndex' (swap currentIndex' randomIndex cs)
  end.

(** [shuffle()] *)
Definition Deck_shuffle (rnd : nat → nat) (d : Deck) : Deck :=
  {| cardTypeCount := cardTypeCount d;
     cards := shuffle_loop rnd 0 (length (cards d)) (cards d) |}.

(** [display()]: shuffle, empty [.deck], append the markup of each card. *)
Definition Deck_display (rnd : nat → nat) (d : Deck) (p : Page) : Deck * Page :=
  let d' := Deck_shuffle rnd d in
  (d', foldl (λ pg card, deck_append (Card_toHtml card) pg) (deck_empty p) (cards d')).

(** The number of cards of a type in a sequence of cards. *)
Definition count_type (ty : string) (cs : list Card) : nat :=
  length (filter (λ c, type c = ty) cs).



(** ** Class Scoreboard, class Game and the timers: the state *)

(** A [Scoreboard] object.  [timerId] is [None] for [null]; the modal
    [finalScoreModal] lives in the page. *)
Record Scoreboard : Type := mkScoreboard {
  moves : nat;
  stars : nat;
  timeTaken : nat;
  timerId : option nat
}.

(** A [Game] object. *)
Record Game : Type := mkGame {
  deck : Deck;
  matches : nat;
  scoreboard : Scoreboard;
  openCards : list Card
}.

(** What a timer runs when it fires: the arrow function of [Card.show],
    the one of [Card.hide], or the one of [Scoreboard.start], which has
    captured [startTime]. *)
Inductive TimerAction : Type :=
  | ShowCard (c : Card)
  | HideCard (c : Card)
  | Tick (startTime : nat).

(** A pending timer: its identifier (a positive number), the instant at
    which it is due and its action. *)
Record Timer : Type := mkTimer {
  tid : nat;
  due : nat;
  action : TimerAction
}.

(** The whole state: the game, the page, the pending timers in the order
    in which they will fire, the next timer identifier, the clock
    ([Date.now()]), and the number of calls of [Game.finish] so far. *)
Record World : Type := mkWorld {
  game : Game;
  page : Page;
  timers : list Timer;
  nextTimerId : nat;
  now : nat;
  finished : nat
}.

Definition set_game (g : Game) (w : World) : World :=
  mkWorld g (page w) (timers w) (nextTimerId w) (now w) (finished w).

Definition set_page (p : Page) (w : World) : World :=
  mkWorld (game w) p (timers w) (nextTimerId w) (now w) (finished w).

Definition set_timers (q : list Timer) (w : World) : World :=
  mkWorld (game w) (page w) q (nextTimerId w) (now w) (finished w).

Definition set_deck (d : Deck) (w : World) : World :=
  set_game (mkGame d (matches (game w)) (scoreboard (game w)) (openCards (game w))) w.

Definition set_matches (m : nat) (w : World) : World :=
  set_game (mkGame (deck (game w)) m (scoreboard (game w)) (openCards (game w))) w.

Definition set_scoreboard (s : Scoreboard) (w : World) : World :=
  set_game (mkGame (deck (game w)) (matches (game w)) s (openCards (game w))) w.

Definition set_openCards (cs : list Card) (w : World) : World :=
  set_game (mkGame (deck (game w)) (matches (game w)) (scoreboard (game w)) cs) w.

Definition sb (w : World) : Scoreboard := scoreboard (game w).

(** ** Timers *)

(** A new timer goes behind the pending timers that are due no later than
    it is. *)
Fixpoint enqueue (t : Timer) (q : list Timer) : list Timer :=
  match q with
  | [] => [t]
  | x :: q' => if due t <? due x then t :: q else x :: enqueue t q'
  end.

(** [setTimeout(callback, delay)] and [setInterval(callback, delay)]: the
    timer gets the identifier [nextTimerId w]. *)
Definition add_timer (a : TimerAction) (delay : nat) (w : World) : World :=
  mkWorld (game w) (page w)
          (enqueue (mkTimer (nextTimerId w) (now w + delay) a) (timers w))
          (S (nextTimerId w)) (now w) (finished w).

(** [clearInterval(id)] *)
Definition clearInterval (id : nat) (w : World) : World :=
  set_timers (filter (λ t, tid t ≠ id) (timers w)) w.

(** ** Class Card: the methods that start a timer *)

(** [hide()] *)
Definition Card_hide (c : Card) (w : World) : World :=
  add_timer (HideCard c) 800 w.

(** [show()] *)
Definition Card_show (c : Card) (w : World) : World :=
  add_timer (ShowCard c) 50 w.

(** ** Class Scoreboard: the methods *)

(** [constructor()] *)
Definition Scoreboard_new : Scoreboard :=
  {| moves := 0; stars := 3; timeTaken := 0; timerId := None |}.

(** [start()] *)
Definition Scoreboard_start (w : World) : World :=
  match timerId (sb w) with
  | None =>
      let startTime := now w in
      let id := nextTimerId w in
      let w := add_timer (Tick startTime) 1000 w in
      set_scoreboard
        (mkScoreboard (moves (sb w)) (stars (sb w)) (timeTaken (sb w)) (Some id)) w
  | Some _ => w
  end.

(** [updateTimeTaken()] *)
Definition Scoreboard_updateTimeTaken (w : World) : World :=
  set_page (set_timeTakenText (timeTaken (sb w)) (page w)) w.

(** The value [newVal] that [updateScore] computes from [moves]. *)
Definition newVal (moves : nat) : nat :=
  if moves <? 15 then 3 else if moves <? 25 then 2 else 1.

(** [updateScore()] *)
Definition Scoreboard_updateScore (w : World) : World :=
  let newVal := newVal (moves (sb w)) in
  let w :=
    if bool_decide (stars (sb w) ≠ newVal) then
      let w := set_page (set_stars newVal (page w)) w in
      set_scoreboard
        (mkScoreboard (moves (sb w)) newVal (timeTaken (sb w)) (timerId (sb w))) w
    else w in
  set_page (set_movesText (moves (sb w)) (page w)) w.

(** [this.timerId && clearInterval(this.timerId)]: timer identifiers are
    positive, so the test only asks whether [timerId] is [null]. *)
Definition clear_timerId (w : World) : World :=
  match timerId (sb w) with
  | Some id => clearInterval id w
  | None => w
  end.

(** [reset()] *)
Definition Scoreboard_reset (w : World) : World :=
  let w := clear_timerId w in
  let w := set_scoreboard (mkScoreboard 0 (stars (sb w)) (timeTaken (sb w)) (timerId (sb w))) w in
  let w := set_scoreboard (mkScoreboard (moves (sb w)) (stars (sb w)) (timeTaken (sb w)) None) w in
  let w := set_scoreboard (mkScoreboard (moves (sb w)) (stars (sb w)) 0 (timerId (sb w))) w in
  let w := set_scoreboard (mkScoreboard (moves (sb w)) 0 (timeTaken (sb w)) (timerId (sb w))) w in
  let w := Scoreboard_updateScore w in
  Scoreboard_updateTimeTaken w.

(** [incrementMoves()] *)
Definition Scoreboard_incrementMoves (w : World) : World :=
  let w := set_scoreboard
             (mkScoreboard (moves (sb w) + 1) (stars (sb w)) (timeTaken (sb w))
                           (timerId (sb w))) w in
  Scoreboard_updateScore w.

(** [showFinalScores()] *)
Definition Scoreboard_showFinalScores (w : World) : World :=
  let w := clear_timerId w in
  let w := set_scoreboard (mkScoreboard (moves (sb w)) (stars (sb w)) (timeTaken (sb w)) None) w in
  set_page (toggle_modal (page w)) w.

(** [closeFinalScores()] *)
Definition Scoreboard_closeFinalScores (w : World) : World :=
  set_page (toggle_modal (page w)) w.

(** ** Class Game: the methods *)

(** [constructor(deck)].  The handlers that the constructor binds to the
    buttons of the modal are the events [YesClick], [NoClick] and
    [CloseClick] below. *)
Definition Game_new (d : Deck) : Game :=
  {| deck := d; matches := 0; scoreboard := Scoreboard_new; openCards := [] |}.

(** [this.deck.display()] *)
Definition display_deck (rnd : nat → nat) (w : World) : World :=
  let '(d, p) := Deck_display rnd (deck (game w)) (page w) in
  set_page p (set_deck d w).

(** [start()].  The handler bound to [.restart] is the event
    [RestartClick] below. *)
Definition Game_start (rnd : nat → nat) (w : World) : World :=
  let w := display_deck rnd w in
  set_page (each_card on_click (page w)) w.

(** [finish()] *)
Definition Game_finish (w : World) : World :=
  let w := Scoreboard_showFinalScores w in
  mkWorld (game w) (page w) (timers w) (nextTimerId w) (now w) (S (finished w)).

(** [openCard(cardElem)] *)
Definition Game_openCard (target : nat) (cardElem : Elem) (w : World) : World :=
  let card := Card_fromElem target cardElem in
  let w := Card_show card w in
  set_openCards (openCards (game w) ++ [card]) w.

(** [isMatched()] *)
Definition Game_isMatched (w : World) : bool :=
  (1 <? length (openCards (game w))) &&
  match openCards (game w) !! 0, openCards (game w) !! 1 with
  | Some c0, Some c1 => Card_isEqual c0 c1
  | _, _ => false
  end.

(** [this.openCards[i].lock()]; [lockMatched] runs only after [isMatched]
    has found two open cards. *)
Definition lock_open (i : nat) (w : World) : World :=
  match openCards (game w) !! i with
  | Some c => set_page (Card_lock c (page w)) w
  | None => w
  end.

(** [lockMatched()] *)
Definition Game_lockMatched (w : World) : World :=
  let w := set_matches (matches (game w) + 1) w in
  let w := set_page (each_card off_click (page w)) w in
  let w := lock_open 0 w in
  let w := lock_open 1 w in
  let w := set_page (each_card on_click_not_match (page w)) w in
  if Deck_getCardTypeCount (deck (game w)) <=? matches (game w)
  then Game_finish w else w.

(** [hideUnmatched()] *)
Definition Game_hideUnmatched (w : World) : World :=
  if 1 <? length (openCards (game w))
  then foldl (λ w card, Card_hide card w) w (openCards (game w))
  else w.

(** [handleScoreModalClose()] *)
Definition Game_handleScoreModalClose (w : World) : World :=
  Scoreboard_closeFinalScores w.

(** [handleCardClick(event)], where [event.target] is the element
    [target] of the store. *)
Definition Game_handleCardClick (target : nat) (w : World) : World :=
  match elems (page w) !! target with
  | None => w
  | Some cardElem =>
      if hasOpen cardElem then w
      else
        let w := Scoreboard_start w in
        let w := Game_openCard target cardElem w in
        if 1 <? length (openCards (game w)) then
          let w := if Game_isMatched w then Game_lockMatched w
                   else Game_hideUnmatched w in
          let w := set_openCards [] w in
          Scoreboard_incrementMoves w
        else w
  end.

(** [handleRestart()] *)
Definition Game_handleRestart (rnd : nat → nat) (w : World) : World :=
  let w := set_page (each_card off_click (page w)) w in
  let w := Scoreboard_reset w in
  let w := set_matches 0 w in
  let w := set_openCards [] w in
  let w := display_deck rnd w in
  set_page (each_card on_click (page w)) w.

(** [handlePlayAgain()] *)
Definition Game_handlePlayAgain (rnd : nat → nat) (w : World) : World :=
  let w := Scoreboard_closeFinalScores w in
  Game_handleRestart rnd w.

(** ** The program and its events *)

(** [new Game(new Deck(cardTypes))] followed by [game.start()], on the
    page [p0] at the instant [t0]. *)
Definition play (cardTypes : list string) (rnd : nat → nat) (p0 : Page)
    (t0 : nat) : World :=
  Game_start rnd
    {| game := Game_new (Deck_new cardTypes); page := p0; timers := [];
       nextTimerId := 1; now := t0; finished := 0 |}.

(** [main()] *)
Definition main (rnd : nat → nat) (p0 : Page) (t0 : nat) : World :=
  play ["anchor"; "bicycle"; "bolt"; "bomb"; "cube"; "diamond"; "leaf";
        "paper-plane"] rnd p0 t0.

(** What can happen after [main]: a click on the card at position [p] of
    [.deck], on [.restart], on [#yesButton], on [#noButton] or on [.close];
    the clock advances; the timer that is first in line fires.  The
    shuffle of a restart draws its random numbers from [rnd]. *)
Inductive Event : Type :=
  | CardClick (p : nat)
  | RestartClick (rnd : nat → nat)
  | YesClick (rnd : nat → nat)
  | NoClick
  | CloseClick
  | Elapse (ms : nat)
  | TimerFires.

(** The callback of a timer.  The interval timer of the scoreboard stays
    in the queue, due one second later. *)
Definition run_timer (t : Timer) (w : World) : World :=
  match action t with
  | ShowCard c => set_page (Card_show_callback c (page w)) w
  | HideCard c => set_page (Card_hide_callback c (page w)) w
  | Tick startTime =>
      let w := set_scoreboard
                 (mkScoreboard (moves (sb w)) (stars (sb w))
                               ((now w - startTime) / 1000) (timerId (sb w))) w in
      let w := Scoreboard_updateTimeTaken w in
      set_timers (enqueue (mkTimer (tid t) (due t + 1000) (Tick startTime)) (timers w)) w
  end.

(** A click on a card runs each handler bound to it. *)
Definition click_card (p : nat) (w : World) : World :=
  match deckChildren (page w) !! p with
  | Some target =>
      match elems (page w) !! target with
      | Some el => Nat.iter (clickHandlers el) (Game_handleCardClick target) w
      | None => w
      end
  | None => w
  end.

Definition step (w : World) (ev : Event) : World :=
  match ev with
  | CardClick p => click_card p w
  | RestartClick rnd => Game_handleRestart rnd w
  | YesClick rnd => Game_handlePlayAgain rnd w
  | NoClick => Game_handleScoreModalClose w
  | CloseClick => Game_handleScoreModalClose w
  | Elapse ms =>
      mkWorld (game w) (page w) (timers w) (nextTimerId w) (now w + ms) (finished w)
  | TimerFires =>
      match timers w with
      | t :: q => if due t <=? now w then run_timer t (set_timers q w) else w
      | [] => w
      end
  end.

(** The state after a sequence of events. *)
Definition run (evs : list Event) (w : World) : World := foldl step w evs.

(** ** Data for the examples *)

(** A page without cards: three stars, no move, modal hidden. *)
Definition blank_page : Page := mkPage [] [] 3 0 0 false.

(** A random source that always draws 0. *)
Definition draw0 : nat → nat := λ _, 0.

(** A game of two pairs on the blank page; the shuffle leaves the cards in
    the order anchor, bolt, bolt, anchor. *)
Definition two_pairs : World := play ["anchor"; "bolt"] draw0 blank_page 0.

(** The game of two pairs after a click on the first card. *)
Definition one_pending : World := run [CardClick 0] two_pairs.

(** Types made of characters that the HTML tokenizer keeps as they are
    inside a double-quoted attribute value: no double quote, no ampersand,
    no carriage return, no NUL. *)
Definition plain_char (c : ascii) : bool :=
  negb (Ascii.eqb c dquote) && negb (Ascii.eqb c (ascii_of_nat 38))
  && negb (Ascii.eqb c (ascii_of_nat 13)) && negb (Ascii.eqb c (ascii_of_nat 0)).

Fixpoint plain_type (s : string) : bool :=
  match s with
  | EmptyString => true
  | String c r => plain_char c && plain_type r
  end.

(** ** States of a card and of the game *)

(** A matched card has the class [match] and neither [open] nor [show]. *)
Definition matched_state (el : Elem) : Prop :=
  hasMatch el = true ∧ hasOpen el = false ∧ hasShow el = false.

(** A hidden card has none of the classes [open] and [show]. *)
Definition hidden_state (el : Elem) : Prop :=
  hasOpen el = false ∧ hasShow el = false.

(** The cards of the page are distinct elements; each has one click
    handler, or none when it has the class [match]. *)
Definition handlers_bound (w : World) : Prop :=
  NoDup (deckChildren (page w)) ∧
  ∀ e el, e ∈ deckChildren (page w) → elems (page w) !! e = Some el →
          clickHandlers el = if hasMatch el then 0 else 1.

(** Every open card refers to an element of the store. *)
Definition open_on_page (w : World) : Prop :=
  Forall (λ c, ∃ e, elem c = Some e ∧ e < length (elems (page w)))
         (openCards (game w)).

(** A game without cards that has not finished. *)
Definition empty_unfinished (w : World) : Prop :=
  cards (deck (game w)) = [] ∧ deckChildren (page w) = [] ∧ finished w = 0.

(** ** Notions for the properties of whole games *)

(** The events that leave the cards of the page in place: all but the two
    that restart the game. *)
Definition same_game (ev : Event) : Prop :=
  match ev with
  | RestartClick _ | YesClick _ => False
  | _ => True
  end.

(** The events in which only time passes. *)
Definition time_event (ev : Event) : Prop :=
  match ev with
  | Elapse _ | TimerFires => True
  | _ => False
  end.

(** An element keeps its symbol and, once it has it, the class [match]. *)
Definition evolves (el el' : Elem) : Prop :=
  iconClass el' = iconClass el ∧ (hasMatch el = true → hasMatch el' = true).

(** Every element of a store is in the later store, evolved. *)
Definition store_evolves (es es' : list Elem) : Prop :=
  ∀ e el, es !! e = Some el → ∃ el', es' !! e = Some el' ∧ evolves el el'.




(** What the scoreboard holds and what the page shows of it: the moves,
    the stars and the seconds of the scoreboard, then the stars, the moves
    and the seconds on the page. *)
Definition score_view (w : World) : nat * nat * nat * nat * nat * nat :=
  (moves (sb w), stars (sb w), timeTaken (sb w),
   starsShown (page w), movesText (page w), timeTakenText (page w)).

(** The stars are those of the move count. *)
Definition stars_rated (w : World) : Prop :=
  stars (sb w) = newVal (moves (sb w)).

(** The page shows the stars, the moves and the seconds of the
    scoreboard. *)
Definition score_shown (w : World) : Prop :=
  starsShown (page w) = stars (sb w) ∧
  movesText (page w) = moves (sb w) ∧
  timeTakenText (page w) = timeTaken (sb w).

(** What the callback of the interval timer does to the scoreboard and the
    page when it computes [seconds]. *)
Definition tick_score (seconds : nat) (w : World) : World :=
  Scoreboard_updateTimeTaken
    (set_scoreboard
       (mkScoreboard (moves (sb w)) (stars (sb w)) seconds (timerId (sb w))) w).

(** The timers of the queue that were started by [setInterval] in
    [Scoreboard.start]. *)
Definition is_tick (t : Timer) : bool :=
  match action t with
  | Tick _ => true
  | _ => false
  end.

Definition clock_timers (w : World) : list Timer :=
  filter (λ t, is_tick t = true) (timers w).

(** The pending timers and the timer that the scoreboard remembers. *)
Definition clock_view (w : World) : list Timer * option nat :=
  (timers w, timerId (sb w)).

(** The only interval timer that can be pending is the one that the
    scoreboard remembers. *)
Definition one_clock (w : World) : Prop :=
  match timerId (sb w) with
  | Some id => ∃ t, clock_timers w = [t] ∧ tid t = id
  | None => clock_timers w = []
  end.

(** The element on which the callback of a timer acts, if any. *)
Definition timer_elem (t : Timer) : option nat :=
  match action t with
  | ShowCard c | HideCard c => elem c
  | Tick _ => None
  end.

(** Every pending timer that acts on an element acts on one of the first
    [bound] elements of the store. *)
Definition timers_below (bound : nat) (q : list Timer) : Prop :=
  Forall (λ t, ∀ e, timer_elem t = Some e → e < bound) q.

(** * Properties *)

(** ** Occurrences in a list *)

Lemma occurs_never {A : Type} `{EqDecision A} (x : A) (l : list A) :
  x ∉ l → filter (λ y, y = x) l = [].
Proof.
  induction l as [|y l IH]; intros Hnotin; [done|].
  apply not_elem_of_cons in Hnotin as [Hne Hnotin].
  rewrite filter_cons_False by congruence. by apply IH.
Qed.

Lemma occurs_once {A : Type} `{EqDecision A} (x : A) (l : list A) :
  NoDup l → x ∈ l → length (filter (λ y, y = x) l) = 1.
Proof.
  induction 1 as [|y l Hnotin _ IH]; intros Hin.
  - by apply elem_of_nil in Hin.
  - destruct (decide (y = x)) as [->|Hne].
    + rewrite filter_cons_True by done.
      by rewrite occurs_never.
    + rewrite filter_cons_False by done. apply IH.
      apply elem_of_cons in Hin as [->|Hin]; [done | exact Hin].
Qed.

(** ** Deck construction *)

Lemma foldl_push_pair (acc : list Card) (cardTypes : list string) :
  foldl push_pair acc cardTypes
  = acc ++ flat_map (λ ty, [Card_new ty; Card_new ty]) cardTypes.
Proof.
  revert acc. induction cardTypes as [|ty tys IH]; intros acc; simpl.
  - by rewrite app_nil_r.
  - rewrite IH. unfold push_pair. by rewrite <- !app_assoc.
Qed.

Lemma Deck_new_cards (cardTypes : list string) :
  cards (Deck_new cardTypes)
  = flat_map (λ ty, [Card_new ty; Card_new ty]) cardTypes.
Proof. unfold Deck_new; simpl. by rewrite foldl_push_pair. Qed.

Lemma Deck_new_length (cardTypes : list string) :
  length (cards (Deck_new cardTypes)) = 2 * length cardTypes.
Proof.
  rewrite Deck_new_cards.
  induction cardTypes as [|ty tys IH]; simpl; [done | lia].
Qed.

(** Each occurrence of a type in the list gives two cards of that type. *)
Lemma Deck_new_count (ty : string) (cardTypes : list string) :
  count_type ty (cards (Deck_new cardTypes))
  = 2 * length (filter (λ ty', ty' = ty) cardTypes).
Proof.
  rewrite Deck_new_cards. unfold count_type.
  induction cardTypes as [|ty' tys IH]; [done|].
  change (flat_map _ (ty' :: tys))
    with (Card_new ty' :: Card_new ty' :: flat_map (λ ty, [Card_new ty; Card_new ty]) tys).
  destruct (decide (ty' = ty)) as [->|Hne].
  - rewrite !filter_cons_True by done. simpl in *. lia.
  - rewrite !filter_cons_False by done. exact IH.
Qed.

(** C1, as amended: for every list of distinct card types, the deck built
    from the list has exactly twice as many cards as the list has types,
    and every type of the list is the type of exactly two cards. *)
Theorem Deck_new_two_of_each (cardTypes : list string) :
  NoDup cardTypes →
  length (cards (Deck_new cardTypes)) = 2 * length cardTypes ∧
  ∀ ty, ty ∈ cardTypes → count_type ty (cards (Deck_new cardTypes)) = 2.
Proof.
  intros Hnd. split; [apply Deck_new_length|].
  intros ty Hin. rewrite Deck_new_count, occurs_once; done.
Qed.

Lemma Deck_new_two_of_each_witness :
  NoDup ["anchor"; "bolt"; "leaf"] ∧
  length (cards (Deck_new ["anchor"; "bolt"; "leaf"])) = 2 * 3 ∧
  ∀ ty, ty ∈ ["anchor"; "bolt"; "leaf"] →
        count_type ty (cards (Deck_new ["anchor"; "bolt"; "leaf"])) = 2.
Proof.
  assert (Hnd : NoDup ["anchor"; "bolt"; "leaf"]).
  { apply (bool_decide_unpack (NoDup ["anchor"; "bolt"; "leaf"])).
    vm_compute. exact I. }
  split; [exact Hnd|].
  exact (Deck_new_two_of_each ["anchor"; "bolt"; "leaf"] Hnd).
Defined.

(** C1, as stated, fails on a list that names a type twice: the type then
    has four cards. *)
Lemma Deck_new_repeated_type :
  "bolt" ∈ ["bolt"; "bolt"] ∧
  count_type "bolt" (cards (Deck_new ["bolt"; "bolt"])) = 4 ∧
  count_type "bolt" (cards (Deck_new ["bolt"; "bolt"])) ≠ 2.
Proof.
  split; [by left|].
  split; [reflexivity | vm_compute; discriminate].
Qed.

(** ** Shuffle *)

Lemma swap_length (i j : nat) (cs : list Card) :
  length (swap i j cs) = length cs.
Proof.
  unfold swap. destruct (cs !! i), (cs !! j); try done.
  by rewrite !length_insert.
Qed.

Lemma swap_same (i : nat) (cs : list Card) : swap i i cs = cs.
Proof.
  unfold swap. destruct (cs !! i) as [c|] eqn:Hi; [|done].
  rewrite list_insert_insert_eq. by apply list_insert_id.
Qed.

Lemma insert_Permutation_cons (cs : list Card) (j : nat) (a b : Card) :
  cs !! j = Some b → b :: <[j := a]> cs ≡ₚ a :: cs.
Proof.
  revert j. induction cs as [|x cs IH]; intros [|j] Hj; simplify_eq/=.
  - apply perm_swap.
  - rewrite perm_swap, (IH j Hj). apply perm_swap.
Qed.

Lemma swap_Permutation (i j : nat) (cs : list Card) : swap i j cs ≡ₚ cs.
Proof.
  unfold swap.
  destruct (cs !! i) as [a|] eqn:Hi; [|done].
  destruct (cs !! j) as [b|] eqn:Hj; [|done].
  revert i j Hi Hj. induction cs as [|x cs IH]; intros [|i] [|j] Hi Hj;
    simplify_eq/=.
  - done.
  - by apply insert_Permutation_cons.
  - by apply insert_Permutation_cons.
  - f_equiv. by apply IH.
Qed.

(** Inside the loop both indices of the exchange are inside the array. *)
Lemma shuffle_swap_in_range (r currentIndex' : nat) (cs : list Card) :
  S currentIndex' ≤ length cs →
  is_Some (cs !! currentIndex') ∧
  is_Some (cs !! random_index r (S currentIndex')).
Proof.
  intros Hle. unfold random_index.
  pose proof (Nat.mod_upper_bound r (S currentIndex') ltac:(lia)).
  split; apply lookup_lt_is_Some; lia.
Qed.

Lemma shuffle_loop_Permutation (rnd : nat → nat) (currentIndex k : nat)
    (cs : list Card) :
  shuffle_loop rnd k currentIndex cs ≡ₚ cs.
Proof.
  revert k cs. induction currentIndex as [|ci IH]; intros k cs; simpl.
  - done.
  - rewrite IH. apply swap_Permutation.
Qed.

Lemma random_index_le (r i : nat) : random_index r (S i) ≤ i.
Proof.
  unfold random_index.
  pose proof (Nat.mod_upper_bound r (S i) ltac:(lia)). lia.
Qed.



(** ** Stars *)

Lemma Scoreboard_updateScore_stars (w : World) :
  stars (sb (Scoreboard_updateScore w)) = newVal (moves (sb w)).
Proof.
  unfold Scoreboard_updateScore.
  case_bool_decide as Hne; simpl; [done|].
  destruct (decide (stars (sb w) = newVal (moves (sb w)))); [done|].
  by destruct Hne.
Qed.

Lemma Scoreboard_updateScore_moves (w : World) :
  moves (sb (Scoreboard_updateScore w)) = moves (sb w).
Proof. unfold Scoreboard_updateScore. by case_bool_decide. Qed.

(** C4: the star rating that [updateScore] computes from a move count [m]
    is 3 when [m < 15], 2 when [15 <= m < 25] and 1 otherwise; 0 and 14
    moves give 3 stars, 15 and 24 give 2 stars, 25 and 1000 give 1 star. *)
Theorem star_rating_thresholds :
  (∀ w : World,
     let m := moves (sb w) in
     let rating := stars (sb (Scoreboard_updateScore w)) in
     (m < 15 → rating = 3) ∧ (15 ≤ m < 25 → rating = 2) ∧ (25 ≤ m → rating = 1)) ∧
  newVal 0 = 3 ∧ newVal 14 = 3 ∧ newVal 15 = 2 ∧ newVal 24 = 2 ∧
  newVal 25 = 1 ∧ newVal 1000 = 1.
Proof.
  split; [|repeat split; reflexivity].
  intros w m rating. subst m rating. rewrite Scoreboard_updateScore_stars.
  unfold newVal.
  repeat split; intros Hm;
    destruct (Nat.ltb_spec (moves (sb w)) 15);
    destruct (Nat.ltb_spec (moves (sb w)) 25); lia.
Qed.

Lemma star_rating_thresholds_witness :
  moves (sb one_pending) < 15 ∧
  stars (sb (Scoreboard_updateScore one_pending)) = 3.
Proof.
  destruct star_rating_thresholds as [Hrating _].
  destruct (Hrating one_pending) as (Hthree & _).
  assert (Hm : moves (sb one_pending) < 15) by (vm_compute; lia).
  split; [exact Hm | exact (Hthree Hm)].
Defined.

(** ** Markup and type of a card *)

Lemma substr_card_markup_prefix (s : string) :
  substr (String.length card_markup_prefix) (card_markup_prefix +:+ s) = s.
Proof. reflexivity. Qed.

Lemma Card_toHtml_prefix (c : Card) :
  Card_toHtml c
  = card_markup_prefix +:+ ("fa fa-" +:+ type c +:+ dq +:+ "></i></li>").
Proof. reflexivity. Qed.

Lemma read_attr_value_plain (ty rest : string) :
  plain_type ty = true →
  read_attr_value (ty +:+ dq +:+ rest) = ty.
Proof.
  induction ty as [|c ty IH]; intros Hp; simpl in *.
  - done.
  - apply andb_prop in Hp as [Hc Hty].
    unfold plain_char in Hc.
    destruct (Ascii.eqb c dquote); [done|].
    by rewrite IH.
Qed.

(** C10, as amended: for a card type made of characters that stand for
    themselves in a double-quoted attribute value, the type determined
    from the element that the markup of the card gives is the type of the
    card. *)
Theorem determineType_toHtml (ty : string) :
  plain_type ty = true →
  Card_determineType (elem_of_markup (Card_toHtml (Card_new ty))) = ty.
Proof.
  intros Hp. unfold Card_determineType, elem_of_markup, child_class_of_markup.
  cbn [iconClass]. rewrite Card_toHtml_prefix, substr_card_markup_prefix.
  cbn [type Card_new].
  change ("fa fa-" +:+ ty +:+ dq +:+ "></i></li>")
    with (String "f" (String "a" (String " " (String "f" (String "a"
            (String "-" (ty +:+ dq +:+ "></i></li>"))))))).
  cbn [read_attr_value Ascii.eqb dquote ascii_of_nat].
  simpl. by apply read_attr_value_plain.
Qed.

Lemma determineType_toHtml_witness :
  plain_type "paper-plane" = true ∧
  Card_determineType (elem_of_markup (Card_toHtml (Card_new "paper-plane")))
  = "paper-plane".
Proof.
  split; [reflexivity|]. apply (determineType_toHtml "paper-plane"). reflexivity.
Defined.

(** C10, as stated, fails for a type that contains a double quote: the
    class attribute ends at that quote, and the type read back is what
    stood before it. *)
Lemma determineType_toHtml_quote :
  Card_determineType
    (elem_of_markup (Card_toHtml (Card_new ("a" +:+ dq +:+ "b")))) = "a" ∧
  Card_determineType
    (elem_of_markup (Card_toHtml (Card_new ("a" +:+ dq +:+ "b"))))
  ≠ "a" +:+ dq +:+ "b".
Proof. split; [reflexivity | vm_compute; discriminate]. Qed.

(** ** What each method leaves alone *)

Ltac destruct_world :=
  repeat match goal with
         | w : World |- _ =>
             destruct w as [[?d ?m [?mv ?st ?tt ?ti] ?oc] [?es ?dc ?ss ?mt ?ttx ?md]
                              ?q ?nid ?clock ?fin]
         end.

Ltac eval_methods :=
  cbv beta iota zeta delta
    [Game_handleRestart Game_handlePlayAgain Game_handleScoreModalClose
     Game_hideUnmatched Game_lockMatched Game_finish Game_openCard
     Game_start lock_open display_deck Deck_display
     Scoreboard_closeFinalScores Scoreboard_showFinalScores
     Scoreboard_incrementMoves Scoreboard_reset Scoreboard_updateScore
     Scoreboard_updateTimeTaken Scoreboard_start clear_timerId
     Card_show Card_hide clearInterval add_timer run_timer
     Card_lock Card_show_callback Card_hide_callback
     set_openCards set_scoreboard set_matches set_deck set_timers
     set_page set_game sb each_card set_elems toggle_modal set_stars
     set_movesText set_timeTakenText Deck_getCardTypeCount
     game page timers nextTimerId now finished
     deck matches scoreboard openCards
     moves stars timeTaken timerId
     elems deckChildren starsShown movesText timeTakenText modalShown].

Ltac case_step :=
  match goal with
  | |- context [match ?x with _ => _ end] => is_var x; destruct x
  | |- context [bool_decide ?P] => case_bool_decide
  | |- context [Nat.leb ?a ?b] => destruct (Nat.leb a b) eqn:?
  | |- context [Nat.ltb ?a ?b] => destruct (Nat.ltb a b) eqn:?
  | |- context [elem ?c] => destruct (elem c)
  | |- context [action ?t] => destruct (action t)
  | |- context [@lookup nat Card (list Card) _ ?i ?l] => destruct (l !! i)
  end.

(** Proves what a method leaves alone by running it on a state given by
    its components. *)
Ltac frame :=
  intros; destruct_world; eval_methods;
  repeat (case_step; eval_methods);
  first [ by repeat split
        | congruence
        | exfalso; match goal with H : ¬ _ |- _ => apply H; by vm_compute end ].

Lemma Scoreboard_start_game (w : World) :
  deck (game (Scoreboard_start w)) = deck (game w) ∧
  matches (game (Scoreboard_start w)) = matches (game w) ∧
  openCards (game (Scoreboard_start w)) = openCards (game w) ∧
  moves (sb (Scoreboard_start w)) = moves (sb w) ∧
  page (Scoreboard_start w) = page w ∧
  now (Scoreboard_start w) = now w ∧
  finished (Scoreboard_start w) = finished w.
Proof. frame. Qed.

Lemma Game_openCard_game (target : nat) (cardElem : Elem) (w : World) :
  deck (game (Game_openCard target cardElem w)) = deck (game w) ∧
  matches (game (Game_openCard target cardElem w)) = matches (game w) ∧
  openCards (game (Game_openCard target cardElem w))
  = openCards (game w) ++ [Card_fromElem target cardElem] ∧
  moves (sb (Game_openCard target cardElem w)) = moves (sb w) ∧
  page (Game_openCard target cardElem w) = page w ∧
  now (Game_openCard target cardElem w) = now w ∧
  finished (Game_openCard target cardElem w) = finished w.
Proof. frame. Qed.

Lemma Scoreboard_incrementMoves_game (w : World) :
  deck (game (Scoreboard_incrementMoves w)) = deck (game w) ∧
  matches (game (Scoreboard_incrementMoves w)) = matches (game w) ∧
  openCards (game (Scoreboard_incrementMoves w)) = openCards (game w) ∧
  moves (sb (Scoreboard_incrementMoves w)) = moves (sb w) + 1 ∧
  elems (page (Scoreboard_incrementMoves w)) = elems (page w) ∧
  deckChildren (page (Scoreboard_incrementMoves w)) = deckChildren (page w) ∧
  timers (Scoreboard_incrementMoves w) = timers w ∧
  now (Scoreboard_incrementMoves w) = now w ∧
  finished (Scoreboard_incrementMoves w) = finished w.
Proof. frame. Qed.

Lemma Game_finish_game (w : World) :
  deck (game (Game_finish w)) = deck (game w) ∧
  matches (game (Game_finish w)) = matches (game w) ∧
  openCards (game (Game_finish w)) = openCards (game w) ∧
  moves (sb (Game_finish w)) = moves (sb w) ∧
  elems (page (Game_finish w)) = elems (page w) ∧
  deckChildren (page (Game_finish w)) = deckChildren (page w) ∧
  now (Game_finish w) = now w ∧
  finished (Game_finish w) = S (finished w).
Proof. frame. Qed.

Lemma foldl_Card_hide_game (cs : list Card) (w : World) :
  game (foldl (λ w card, Card_hide card w) w cs) = game w ∧
  page (foldl (λ w card, Card_hide card w) w cs) = page w ∧
  now (foldl (λ w card, Card_hide card w) w cs) = now w ∧
  finished (foldl (λ w card, Card_hide card w) w cs) = finished w.
Proof.
  revert w. induction cs as [|c cs IH]; intros w; [done|].
  cbn [foldl]. destruct (IH (Card_hide c w)) as (-> & -> & -> & ->).
  done.
Qed.

Lemma Game_hideUnmatched_game (w : World) :
  game (Game_hideUnmatched w) = game w ∧
  page (Game_hideUnmatched w) = page w ∧
  now (Game_hideUnmatched w) = now w ∧
  finished (Game_hideUnmatched w) = finished w.
Proof.
  unfold Game_hideUnmatched. destruct (1 <? _); [|done].
  apply foldl_Card_hide_game.
Qed.

Lemma Scoreboard_reset_game (w : World) :
  deck (game (Scoreboard_reset w)) = deck (game w) ∧
  matches (game (Scoreboard_reset w)) = matches (game w) ∧
  openCards (game (Scoreboard_reset w)) = openCards (game w) ∧
  scoreboard (game (Scoreboard_reset w)) = mkScoreboard 0 3 0 None ∧
  elems (page (Scoreboard_reset w)) = elems (page w) ∧
  deckChildren (page (Scoreboard_reset w)) = deckChildren (page w) ∧
  starsShown (page (Scoreboard_reset w)) = 3 ∧
  movesText (page (Scoreboard_reset w)) = 0 ∧
  timeTakenText (page (Scoreboard_reset w)) = 0 ∧
  modalShown (page (Scoreboard_reset w)) = modalShown (page w) ∧
  now (Scoreboard_reset w) = now w ∧
  finished (Scoreboard_reset w) = finished w.
Proof. frame. Qed.

Lemma run_timer_game (t : Timer) (w : World) :
  deck (game (run_timer t w)) = deck (game w) ∧
  matches (game (run_timer t w)) = matches (game w) ∧
  openCards (game (run_timer t w)) = openCards (game w) ∧
  moves (sb (run_timer t w)) = moves (sb w) ∧
  deckChildren (page (run_timer t w)) = deckChildren (page w) ∧
  now (run_timer t w) = now w ∧
  finished (run_timer t w) = finished w.
Proof. frame. Qed.

(** ** Elements of the page *)

Lemma for_each_elem_length (f : Elem → Elem) (ids : list nat) (es : list Elem) :
  length (for_each_elem f ids es) = length es.
Proof.
  unfold for_each_elem. revert es.
  induction ids as [|i ids IH]; intros es; simpl; [done|].
  by rewrite IH, length_alter.
Qed.

(** An element is changed once for each time it is selected. *)
Lemma for_each_elem_lookup (f : Elem → Elem) (ids : list nat) (es : list Elem)
    (e : nat) :
  for_each_elem f ids es !! e
  = Nat.iter (length (filter (λ i, i = e) ids)) f <$> es !! e.
Proof.
  unfold for_each_elem. revert es.
  induction ids as [|i ids IH]; intros es; cbn [foldl].
  - by destruct (es !! e).
  - rewrite IH. destruct (decide (i = e)) as [->|Hne].
    + rewrite filter_cons_True by done.
      rewrite list_lookup_alter_eq. cbn [length].
      destruct (es !! e) as [el|]; [|done]. cbn.
      f_equal. symmetry. apply Nat.iter_succ_r.
    + rewrite filter_cons_False by done.
      by rewrite list_lookup_alter_ne.
Qed.

(** ** Display of the deck *)

Lemma foldl_deck_append (cs : list Card) (p : Page) :
  foldl (λ pg card, deck_append (Card_toHtml card) pg) p cs
  = mkPage (elems p ++ ((λ c, elem_of_markup (Card_toHtml c)) <$> cs))
           (deckChildren p ++ seq (length (elems p)) (length cs))
           (starsShown p) (movesText p) (timeTakenText p) (modalShown p).
Proof.
  revert p. induction cs as [|c cs IH]; intros p; cbn [foldl].
  - destruct p; cbn. by rewrite !app_nil_r.
  - rewrite IH. unfold deck_append; cbn.
    rewrite length_app, <- !app_assoc. cbn.
    by rewrite Nat.add_1_r.
Qed.

Lemma display_deck_page (rnd : nat → nat) (w : World) :
  page (display_deck rnd w)
  = mkPage (elems (page w)
              ++ ((λ c, elem_of_markup (Card_toHtml c))
                    <$> cards (Deck_shuffle rnd (deck (game w)))))
           (seq (length (elems (page w)))
                (length (cards (Deck_shuffle rnd (deck (game w))))))
           (starsShown (page w)) (movesText (page w))
           (timeTakenText (page w)) (modalShown (page w)).
Proof.
  unfold display_deck, Deck_display. cbn. by rewrite foldl_deck_append.
Qed.

Lemma display_deck_game (rnd : nat → nat) (w : World) :
  deck (game (display_deck rnd w)) = Deck_shuffle rnd (deck (game w)) ∧
  matches (game (display_deck rnd w)) = matches (game w) ∧
  openCards (game (display_deck rnd w)) = openCards (game w) ∧
  scoreboard (game (display_deck rnd w)) = scoreboard (game w) ∧
  timers (display_deck rnd w) = timers w ∧
  now (display_deck rnd w) = now w ∧
  finished (display_deck rnd w) = finished w.
Proof. unfold display_deck, Deck_display. cbn. done. Qed.

(** After [display] and [$('.card').on('click', ...)] every card of the
    page is hidden, unmatched and has one click handler. *)
Lemma displayed_cards_fresh (rnd : nat → nat) (w : World) (e : nat) :
  e ∈ deckChildren (page (display_deck rnd w)) →
  ∃ el, elems (each_card on_click (page (display_deck rnd w))) !! e = Some el ∧
        hasOpen el = false ∧ hasShow el = false ∧ hasMatch el = false ∧
        clickHandlers el = 1.
Proof.
  rewrite display_deck_page. cbn [deckChildren each_card set_elems elems].
  intros Hin. rewrite for_each_elem_lookup.
  rewrite occurs_once by (done || apply NoDup_seq).
  apply elem_of_seq in Hin as [Hge Hlt].
  rewrite lookup_app_r by lia.
  rewrite list_lookup_fmap.
  destruct (lookup_lt_is_Some_2
              (cards (Deck_shuffle rnd (deck (game w))))
              (e - length (elems (page w))) ltac:(lia)) as [c ->].
  eexists. split; [reflexivity|]. done.
Qed.

(** ** The turn *)

Lemma lock_open_game (i : nat) (w : World) :
  game (lock_open i w) = game w ∧
  deckChildren (page (lock_open i w)) = deckChildren (page w) ∧
  now (lock_open i w) = now w ∧
  finished (lock_open i w) = finished w.
Proof.
  unfold lock_open, Card_lock.
  destruct (openCards (game w) !! i) as [c|]; [|done].
  by destruct (elem c).
Qed.

Lemma Game_lockMatched_finish (w : World) :
  let w' := if Deck_getCardTypeCount (deck (game w)) <=? matches (game w)
            then Game_finish w else w in
  deck (game w') = deck (game w) ∧
  matches (game w') = matches (game w) ∧
  openCards (game w') = openCards (game w) ∧
  moves (sb w') = moves (sb w) ∧
  elems (page w') = elems (page w) ∧
  deckChildren (page w') = deckChildren (page w) ∧
  now w' = now w ∧
  finished w'
  = (if cardTypeCount (deck (game w)) <=? matches (game w)
     then S (finished w) else finished w).
Proof.
  intros w'. subst w'. unfold Deck_getCardTypeCount.
  destruct (_ <=? _); [|done].
  destruct (Game_finish_game w) as (-> & -> & -> & -> & -> & -> & -> & ->).
  done.
Qed.

Lemma Game_lockMatched_game (w : World) :
  deck (game (Game_lockMatched w)) = deck (game w) ∧
  matches (game (Game_lockMatched w)) = matches (game w) + 1 ∧
  openCards (game (Game_lockMatched w)) = openCards (game w) ∧
  moves (sb (Game_lockMatched w)) = moves (sb w) ∧
  deckChildren (page (Game_lockMatched w)) = deckChildren (page w) ∧
  now (Game_lockMatched w) = now w ∧
  finished (Game_lockMatched w)
  = (if cardTypeCount (deck (game w)) <=? matches (game w) + 1
     then S (finished w) else finished w).
Proof.
  unfold Game_lockMatched. cbv zeta.
  set (w1 := set_page _ (set_matches (matches (game w) + 1) w)).
  set (w5 := set_page _ (lock_open 1 (lock_open 0 w1))).
  destruct (Game_lockMatched_finish w5) as (-> & -> & -> & -> & _ & -> & -> & ->).
  subst w5. unfold sb.
  cbn [set_page game page now finished deckChildren each_card set_elems].
  destruct (lock_open_game 1 (lock_open 0 w1)) as (-> & -> & -> & ->).
  destruct (lock_open_game 0 w1) as (-> & -> & -> & ->).
  subst w1. done.
Qed.

Lemma Game_lockMatched_page (w : World) :
  elems (page (Game_lockMatched w))
  = for_each_elem on_click_not_match (deckChildren (page w))
      (elems (page (lock_open 1 (lock_open 0
         (set_page (each_card off_click (page w))
                   (set_matches (matches (game w) + 1) w)))))).
Proof.
  unfold Game_lockMatched. cbv zeta.
  set (w1 := set_page _ (set_matches (matches (game w) + 1) w)).
  set (w5 := set_page _ (lock_open 1 (lock_open 0 w1))).
  destruct (Game_lockMatched_finish w5) as (_ & _ & _ & _ & -> & _).
  subst w5. cbn [set_page page each_card set_elems elems].
  destruct (lock_open_game 1 (lock_open 0 w1)) as (_ & -> & _).
  destruct (lock_open_game 0 w1) as (_ & -> & _).
  done.
Qed.

Lemma Game_lockMatched_elems (w : World) (c0 c1 : Card) (rest : list Card)
    (e0 e1 : nat) :
  openCards (game w) = c0 :: c1 :: rest →
  elem c0 = Some e0 → elem c1 = Some e1 →
  elems (page (Game_lockMatched w))
  = for_each_elem on_click_not_match (deckChildren (page w))
      (alter (λ el, removeClass_open_show (addClass_match el)) e1
         (alter (λ el, removeClass_open_show (addClass_match el)) e0
            (for_each_elem off_click (deckChildren (page w)) (elems (page w))))).
Proof.
  intros Hoc He0 He1. rewrite Game_lockMatched_page. f_equal.
  unfold lock_open at 1.
  destruct (lock_open_game 0
              (set_page (each_card off_click (page w))
                        (set_matches (matches (game w) + 1) w))) as (-> & _).
  cbn [set_page set_matches set_game game openCards]. rewrite Hoc.
  cbn [lookup list_lookup]. unfold Card_lock at 1. rewrite He1.
  cbn [set_page page set_elems elems]. f_equal.
  unfold lock_open. cbn [set_page set_matches set_game game openCards].
  rewrite Hoc. cbn [lookup list_lookup]. unfold Card_lock. rewrite He0.
  reflexivity.
Qed.

Lemma matched_state_lock (el : Elem) :
  matched_state (removeClass_open_show (addClass_match el)).
Proof. done. Qed.

Lemma matched_state_iter_on (n : nat) (el : Elem) :
  matched_state el → matched_state (Nat.iter n on_click_not_match el).
Proof.
  intros Hm. induction n as [|n IH]; [done|]. rewrite Nat.iter_succ.
  unfold on_click_not_match at 1. destruct IH as (Hmatch & ? & ?).
  by rewrite Hmatch.
Qed.

(** The element of a card that [lockMatched] locks is in the matched
    state afterwards, whether it is the first or the second open card. *)
Lemma Game_lockMatched_locks (w : World) (c0 c1 : Card) (e0 e1 e : nat) :
  openCards (game w) = [c0; c1] →
  elem c0 = Some e0 → elem c1 = Some e1 →
  e = e0 ∨ e = e1 →
  is_Some (elems (page w) !! e) →
  ∃ el', elems (page (Game_lockMatched w)) !! e = Some el' ∧ matched_state el'.
Proof.
  intros Hoc He0 He1 He [el Hel].
  rewrite (Game_lockMatched_elems w c0 c1 [] e0 e1 Hoc He0 He1).
  rewrite for_each_elem_lookup.
  set (lockf := λ el, removeClass_open_show (addClass_match el)).
  set (es := for_each_elem off_click _ _).
  assert (Hes : is_Some (es !! e)).
  { subst es. rewrite for_each_elem_lookup, Hel. by eexists. }
  destruct Hes as [el0 Hel0].
  assert (∃ el1, alter lockf e1 (alter lockf e0 es) !! e = Some el1
                 ∧ matched_state el1) as (el1 & -> & Hm).
  { destruct (decide (e = e1)) as [->|Hne1].
    - rewrite list_lookup_alter_eq.
      destruct (decide (e1 = e0)) as [->|Hne0].
      + rewrite list_lookup_alter_eq, Hel0. eexists; split; [done|].
        apply matched_state_lock.
      + rewrite list_lookup_alter_ne, Hel0 by done. eexists; split; [done|].
        apply matched_state_lock.
    - destruct He as [->| ->]; [|done].
      rewrite list_lookup_alter_ne by done.
      rewrite list_lookup_alter_eq, Hel0. eexists; split; [done|].
      apply matched_state_lock. }
  eexists; split; [done|]. by apply matched_state_iter_on.
Qed.

(** What [handleCardClick] does with a card that is not open when one
    card is pending. *)
Lemma Game_handleCardClick_second (target : nat) (cardElem : Elem) (c1 : Card)
    (w : World) :
  elems (page w) !! target = Some cardElem →
  hasOpen cardElem = false →
  openCards (game w) = [c1] →
  let opened := Game_openCard target cardElem (Scoreboard_start w) in
  openCards (game opened) = [c1; Card_fromElem target cardElem] ∧
  Game_handleCardClick target w
  = Scoreboard_incrementMoves
      (set_openCards []
         (if Card_isEqual c1 (Card_fromElem target cardElem)
          then Game_lockMatched opened else Game_hideUnmatched opened)).
Proof.
  intros Hel Hopen Hoc opened.
  assert (Hopened : openCards (game opened) = [c1; Card_fromElem target cardElem]).
  { subst opened.
    destruct (Game_openCard_game target cardElem (Scoreboard_start w))
      as (_ & _ & -> & _).
    destruct (Scoreboard_start_game w) as (_ & _ & -> & _).
    by rewrite Hoc. }
  split; [exact Hopened|].
  unfold Game_handleCardClick. rewrite Hel, Hopen. cbn zeta.
  fold opened. unfold Game_isMatched. rewrite Hopened. cbn.
  reflexivity.
Qed.

(** What [handleCardClick] does with a card that is not open when no card
    is pending. *)
Lemma Game_handleCardClick_first (target : nat) (cardElem : Elem) (w : World) :
  elems (page w) !! target = Some cardElem →
  hasOpen cardElem = false →
  openCards (game w) = [] →
  Game_handleCardClick target w
  = Game_openCard target cardElem (Scoreboard_start w).
Proof.
  intros Hel Hopen Hoc.
  unfold Game_handleCardClick. rewrite Hel, Hopen. cbn zeta.
  destruct (Game_openCard_game target cardElem (Scoreboard_start w))
    as (_ & _ & -> & _).
  destruct (Scoreboard_start_game w) as (_ & _ & -> & _).
  by rewrite Hoc.
Qed.

(** A click on a card that has the class [open] changes nothing. *)
Lemma Game_handleCardClick_open (target : nat) (cardElem : Elem) (w : World) :
  elems (page w) !! target = Some cardElem →
  hasOpen cardElem = true →
  Game_handleCardClick target w = w.
Proof. intros Hel Hopen. unfold Game_handleCardClick. by rewrite Hel, Hopen. Qed.

Lemma click_card_one_handler (p target : nat) (cardElem : Elem) (w : World) :
  deckChildren (page w) !! p = Some target →
  elems (page w) !! target = Some cardElem →
  clickHandlers cardElem = 1 →
  step w (CardClick p) = Game_handleCardClick target w.
Proof. intros Hp Hel Hh. cbn. unfold click_card. by rewrite Hp, Hel, Hh. Qed.

Lemma elem_of_enqueue (x t : Timer) (q : list Timer) :
  x ∈ enqueue t q ↔ x = t ∨ x ∈ q.
Proof.
  induction q as [|y q IH]; cbn [enqueue].
  - rewrite list_elem_of_singleton, elem_of_nil. tauto.
  - destruct (due t <? due y); rewrite !elem_of_cons; [tauto|].
    rewrite IH. tauto.
Qed.

(** The second reveal of a turn when the types are equal, for any state
    in which the clicked card has one handler. *)
Lemma equal_type_step (w : World) (p target e1 : nat)
    (cardElem : Elem) (c1 : Card) :
  deckChildren (page w) !! p = Some target →
  elems (page w) !! target = Some cardElem →
  clickHandlers cardElem = 1 →
  hasOpen cardElem = false →
  openCards (game w) = [c1] →
  elem c1 = Some e1 →
  is_Some (elems (page w) !! e1) →
  Card_determineType cardElem = type c1 →
  let w' := step w (CardClick p) in
  (∃ el, elems (page w') !! e1 = Some el ∧ matched_state el) ∧
  (∃ el, elems (page w') !! target = Some el ∧ matched_state el) ∧
  openCards (game w') = [] ∧
  moves (sb w') = moves (sb w) + 1 ∧
  matches (game w') = matches (game w) + 1 ∧
  (matches (game w') = cardTypeCount (deck (game w')) →
   finished w' = finished w + 1).
Proof.
  intros Hp Hel Hh Hopen Hoc He1 Hel1 Hty w'. subst w'.
  rewrite (click_card_one_handler p target cardElem w Hp Hel Hh).
  destruct (Game_handleCardClick_second target cardElem c1 w Hel Hopen Hoc)
    as [Hopened ->].
  set (opened := Game_openCard target cardElem (Scoreboard_start w)) in *.
  assert (Heq : Card_isEqual c1 (Card_fromElem target cardElem) = true).
  { unfold Card_isEqual. apply bool_decide_eq_true. symmetry. exact Hty. }
  rewrite Heq.
  destruct (Scoreboard_incrementMoves_game (set_openCards [] (Game_lockMatched opened)))
    as (-> & -> & -> & -> & -> & _ & _ & _ & ->).
  cbn [set_openCards set_game game page finished openCards matches deck sb scoreboard moves].
  destruct (Game_lockMatched_game opened) as (-> & -> & _ & Hmoves & _ & _ & ->).
  unfold sb in Hmoves. rewrite Hmoves.
  destruct (Game_openCard_game target cardElem (Scoreboard_start w))
    as (Hd & Hm & _ & Hmv & Hpg & _ & Hfin).
  fold opened in Hd, Hm, Hmv, Hpg, Hfin.
  destruct (Scoreboard_start_game w) as (Hd' & Hm' & _ & Hmv' & Hpg' & _ & Hfin').
  unfold sb in Hmv, Hmv'.
  rewrite Hd, Hm, Hmv, Hfin, Hd', Hm', Hmv', Hfin'.
  assert (Hpage : page opened = page w) by congruence.
  repeat split.
  - apply (Game_lockMatched_locks opened c1 (Card_fromElem target cardElem) e1 target);
      [done | done | done | by left | by rewrite Hpage].
  - apply (Game_lockMatched_locks opened c1 (Card_fromElem target cardElem) e1 target);
      [done | done | done | by right | rewrite Hpage, Hel; by eexists].
  - intros Hall. destruct (Nat.leb_spec (cardTypeCount (deck (game w)))
                                        (matches (game w) + 1)); lia.
Qed.

Lemma Card_hide_callback_hides (c : Card) (e : nat) (pg : Page) :
  elem c = Some e → is_Some (elems pg !! e) →
  ∃ el, elems (Card_hide_callback c pg) !! e = Some el ∧ hidden_state el.
Proof.
  intros He [el Hel]. unfold Card_hide_callback. rewrite He. cbn.
  rewrite list_lookup_alter_eq, Hel. eexists; split; [done|]. done.
Qed.

(** The second reveal of a turn when the types differ, for any state in
    which the clicked card has one handler. *)
Lemma other_type_step (w : World) (p target e1 : nat)
    (cardElem : Elem) (c1 : Card) :
  deckChildren (page w) !! p = Some target →
  elems (page w) !! target = Some cardElem →
  clickHandlers cardElem = 1 →
  hasOpen cardElem = false →
  openCards (game w) = [c1] →
  elem c1 = Some e1 →
  Card_determineType cardElem ≠ type c1 →
  let w' := step w (CardClick p) in
  let c2 := Card_fromElem target cardElem in
  moves (sb w') = moves (sb w) + 1 ∧
  matches (game w') = matches (game w) ∧
  openCards (game w') = [] ∧
  finished w' = finished w ∧
  (∃ id1 id2,
     mkTimer id1 (now w + 800) (HideCard c1) ∈ timers w' ∧
     mkTimer id2 (now w + 800) (HideCard c2) ∈ timers w') ∧
  (∀ (t : Timer) (w'' : World),
     action t = HideCard c1 → is_Some (elems (page w'') !! e1) →
     ∃ el, elems (page (run_timer t w'')) !! e1 = Some el ∧ hidden_state el) ∧
  (∀ (t : Timer) (w'' : World),
     action t = HideCard c2 → is_Some (elems (page w'') !! target) →
     ∃ el, elems (page (run_timer t w'')) !! target = Some el ∧ hidden_state el).
Proof.
  intros Hp Hel Hh Hopen Hoc He1 Hty w' c2. subst w'.
  rewrite (click_card_one_handler p target cardElem w Hp Hel Hh).
  destruct (Game_handleCardClick_second target cardElem c1 w Hel Hopen Hoc)
    as [Hopened ->].
  set (opened := Game_openCard target cardElem (Scoreboard_start w)) in *.
  assert (Hne : Card_isEqual c1 (Card_fromElem target cardElem) = false).
  { unfold Card_isEqual. apply bool_decide_eq_false.
    intros Heq. apply Hty. symmetry. exact Heq. }
  rewrite Hne.
  destruct (Scoreboard_incrementMoves_game (set_openCards [] (Game_hideUnmatched opened)))
    as (_ & -> & -> & -> & _ & _ & -> & _ & ->).
  cbn [set_openCards set_game game page finished openCards matches deck sb
       scoreboard moves timers].
  destruct (Game_hideUnmatched_game opened) as (-> & _ & _ & ->).
  destruct (Game_openCard_game target cardElem (Scoreboard_start w))
    as (_ & Hm & _ & Hmv & _ & Hnow & Hfin).
  fold opened in Hm, Hmv, Hnow, Hfin.
  destruct (Scoreboard_start_game w) as (_ & Hm' & _ & Hmv' & _ & Hnow' & Hfin').
  unfold sb in Hmv, Hmv'.
  rewrite Hm, Hmv, Hfin, Hm', Hmv', Hfin'.
  repeat split.
  - exists (nextTimerId opened), (S (nextTimerId opened)).
    unfold Game_hideUnmatched. rewrite Hopened. cbn.
    rewrite ?Hnow, ?Hnow', !elem_of_enqueue. fold c2. split; [right|]; by left.
  - intros t w'' Ht Hsome. unfold run_timer. rewrite Ht. cbn [set_page page].
    by apply Card_hide_callback_hides.
  - intros t w'' Ht Hsome. unfold run_timer. rewrite Ht. cbn [set_page page].
    by apply Card_hide_callback_hides.
Qed.

(** ** The pending cards *)

Lemma Game_handleCardClick_pending (target : nat) (w : World) :
  length (openCards (game w)) ≤ 1 →
  length (openCards (game (Game_handleCardClick target w))) ≤ 1.
Proof.
  intros Hle. unfold Game_handleCardClick.
  destruct (elems (page w) !! target) as [cardElem|]; [|done].
  destruct (hasOpen cardElem); [done|]. cbn zeta.
  destruct (1 <? _) eqn:Hlt.
  - destruct (Scoreboard_incrementMoves_game
                (set_openCards []
                   (if Game_isMatched (Game_openCard target cardElem (Scoreboard_start w))
                    then Game_lockMatched (Game_openCard target cardElem (Scoreboard_start w))
                    else Game_hideUnmatched (Game_openCard target cardElem (Scoreboard_start w)))))
      as (_ & _ & -> & _).
    cbn. lia.
  - apply Nat.ltb_ge in Hlt. exact Hlt.
Qed.

Lemma iter_handleCardClick_pending (n target : nat) (w : World) :
  length (openCards (game w)) ≤ 1 →
  length (openCards (game (Nat.iter n (Game_handleCardClick target) w))) ≤ 1.
Proof.
  intros Hle. induction n as [|n IH]; [done|].
  cbn. by apply Game_handleCardClick_pending.
Qed.

Lemma Game_handleRestart_game (rnd : nat → nat) (w : World) :
  deck (game (Game_handleRestart rnd w)) = Deck_shuffle rnd (deck (game w)) ∧
  matches (game (Game_handleRestart rnd w)) = 0 ∧
  openCards (game (Game_handleRestart rnd w)) = [] ∧
  scoreboard (game (Game_handleRestart rnd w)) = mkScoreboard 0 3 0 None ∧
  now (Game_handleRestart rnd w) = now w ∧
  finished (Game_handleRestart rnd w) = finished w.
Proof. frame. Qed.

Lemma Game_handlePlayAgain_game (rnd : nat → nat) (w : World) :
  deck (game (Game_handlePlayAgain rnd w)) = Deck_shuffle rnd (deck (game w)) ∧
  matches (game (Game_handlePlayAgain rnd w)) = 0 ∧
  openCards (game (Game_handlePlayAgain rnd w)) = [] ∧
  scoreboard (game (Game_handlePlayAgain rnd w)) = mkScoreboard 0 3 0 None ∧
  now (Game_handlePlayAgain rnd w) = now w ∧
  finished (Game_handlePlayAgain rnd w) = finished w.
Proof. frame. Qed.

Lemma step_pending (w : World) (ev : Event) :
  length (openCards (game w)) ≤ 1 →
  length (openCards (game (step w ev))) ≤ 1.
Proof.
  intros Hle. destruct ev as [p|rnd|rnd| | |ms|]; cbn [step].
  - unfold click_card.
    destruct (deckChildren (page w) !! p) as [target|]; [|done].
    destruct (elems (page w) !! target) as [el|]; [|done].
    by apply iter_handleCardClick_pending.
  - destruct (Game_handleRestart_game rnd w) as (_ & _ & -> & _). cbn. lia.
  - destruct (Game_handlePlayAgain_game rnd w) as (_ & _ & -> & _). cbn. lia.
  - done.
  - done.
  - done.
  - destruct (timers w) as [|t q]; [done|].
    destruct (due t <=? now w); [|done].
    by destruct (run_timer_game t (set_timers q w)) as (_ & _ & -> & _).
Qed.

Lemma run_pending (evs : list Event) (w : World) :
  length (openCards (game w)) ≤ 1 →
  length (openCards (game (run evs w))) ≤ 1.
Proof.
  unfold run. revert w. induction evs as [|ev evs IH]; intros w Hle; [done|].
  cbn [foldl]. by apply IH, step_pending.
Qed.

Lemma play_openCards (cardTypes : list string) (rnd : nat → nat) (p0 : Page)
    (t0 : nat) :
  openCards (game (play cardTypes rnd p0 t0)) = [].
Proof. reflexivity. Qed.

(** C9: in every state that the game reaches, at most one card is
    pending; while a click is handled the pending cards are at most two,
    and when they are two the same call of the handler ends with none. *)
Theorem pending_cards_at_most_two (cardTypes : list string) (rnd : nat → nat)
    (p0 : Page) (t0 : nat) (evs : list Event) :
  let w := run evs (play cardTypes rnd p0 t0) in
  length (openCards (game w)) ≤ 1 ∧
  ∀ (target : nat) (cardElem : Elem),
    let opened := Game_openCard target cardElem (Scoreboard_start w) in
    length (openCards (game opened)) ≤ 2 ∧
    (elems (page w) !! target = Some cardElem → hasOpen cardElem = false →
     length (openCards (game opened)) = 2 →
     openCards (game (Game_handleCardClick target w)) = []).
Proof.
  intros w.
  assert (Hle : length (openCards (game w)) ≤ 1).
  { apply run_pending. rewrite play_openCards. cbn. lia. }
  split; [exact Hle|]. intros target cardElem opened.
  assert (Hopened : openCards (game opened)
                    = openCards (game w) ++ [Card_fromElem target cardElem]).
  { subst opened.
    destruct (Game_openCard_game target cardElem (Scoreboard_start w))
      as (_ & _ & -> & _).
    by destruct (Scoreboard_start_game w) as (_ & _ & -> & _). }
  rewrite Hopened, length_app. cbn [length]. split; [lia|].
  intros Hel Hopen Hlen.
  destruct (openCards (game w)) as [|c1 [|c cs]] eqn:Hoc; cbn in Hlen, Hle; try lia.
  destruct (Game_handleCardClick_second target cardElem c1 w Hel Hopen Hoc)
    as [_ ->].
  by destruct (Scoreboard_incrementMoves_game
                 (set_openCards []
                    (if Card_isEqual c1 (Card_fromElem target cardElem)
                     then Game_lockMatched (Game_openCard target cardElem (Scoreboard_start w))
                     else Game_hideUnmatched (Game_openCard target cardElem (Scoreboard_start w)))))
    as (_ & _ & -> & _).
Qed.

Lemma pending_cards_at_most_two_witness :
  length (openCards (game one_pending)) ≤ 1 ∧
  openCards (game (Game_handleCardClick 3 one_pending)) = [].
Proof.
  destruct (pending_cards_at_most_two ["anchor"; "bolt"] draw0 blank_page 0
              [CardClick 0]) as [Hle Hclick].
  split; [exact Hle|].
  destruct (Hclick 3 (mkElem "fa fa-anchor" false false false 1)) as [_ Hclear].
  apply Hclear; reflexivity.
Defined.

(** ** Restart *)

Lemma Game_handleRestart_page (rnd : nat → nat) (w : World) :
  ∃ w3, page (Game_handleRestart rnd w)
        = each_card on_click (page (display_deck rnd w3)) ∧
        deck (game w3) = deck (game w).
Proof.
  eexists. split; [reflexivity|]. frame.
Qed.

(** C6: a restart leaves no card pending, no match and no move, and the
    deck in the order of a new shuffle of the same cards; every card of
    the page is hidden, unmatched and ready for a click. *)
Theorem restart_returns_to_idle (rnd : nat → nat) (w : World) :
  let w' := step w (RestartClick rnd) in
  openCards (game w') = [] ∧
  matches (game w') = 0 ∧
  moves (sb w') = 0 ∧
  stars (sb w') = 3 ∧
  cards (deck (game w')) = cards (Deck_shuffle rnd (deck (game w))) ∧
  cards (deck (game w')) ≡ₚ cards (deck (game w)) ∧
  cardTypeCount (deck (game w')) = cardTypeCount (deck (game w)) ∧
  length (deckChildren (page w')) = length (cards (deck (game w'))) ∧
  ∀ e, e ∈ deckChildren (page w') →
       ∃ el, elems (page w') !! e = Some el ∧ hidden_state el ∧
             hasMatch el = false ∧ clickHandlers el = 1.
Proof.
  intros w'. subst w'. cbn [step].
  destruct (Game_handleRestart_game rnd w) as (Hd & Hm & Hoc & Hsb & _ & _).
  unfold sb. rewrite Hd, Hm, Hoc, Hsb.
  destruct (Game_handleRestart_page rnd w) as (w3 & Hpg & Hd3).
  rewrite Hpg. cbn [each_card set_elems deckChildren].
  do 5 (split; [done|]).
  split; [apply shuffle_loop_Permutation|].
  split; [done|].
  split.
  - rewrite display_deck_page. cbn [deckChildren]. by rewrite length_seq, Hd3.
  - intros e He.
    destruct (displayed_cards_fresh rnd w3 e He) as (el & Hel & ? & ? & ? & ?).
    exists el. done.
Qed.

Lemma restart_returns_to_idle_witness :
  let w' := step one_pending (RestartClick draw0) in
  openCards (game w') = [] ∧ matches (game w') = 0 ∧ moves (sb w') = 0 ∧
  ∃ el, elems (page w') !! 4 = Some el ∧ hidden_state el ∧
        hasMatch el = false ∧ clickHandlers el = 1.
Proof.
  intros w'.
  destruct (restart_returns_to_idle draw0 one_pending)
    as (H1 & H2 & H3 & _ & _ & _ & _ & _ & Hcards).
  split; [exact H1|]. split; [exact H2|]. split; [exact H3|].
  apply Hcards.
  replace (deckChildren (page (step one_pending (RestartClick draw0))))
    with [4; 5; 6; 7] by (vm_compute; reflexivity).
  by left.
Defined.

(** ** A game without cards *)

Lemma play_empty (rnd : nat → nat) (p0 : Page) (t0 : nat) :
  empty_unfinished (play [] rnd p0 t0).
Proof. done. Qed.

Lemma step_empty_unfinished (w : World) (ev : Event) :
  empty_unfinished w → empty_unfinished (step w ev).
Proof.
  intros (Hcards & Hdc & Hfin). unfold empty_unfinished.
  destruct ev as [p|rnd|rnd| | |ms|]; cbn [step].
  - unfold click_card. by rewrite Hdc.
  - destruct (Game_handleRestart_game rnd w) as (-> & _ & _ & _ & _ & ->).
    destruct (Game_handleRestart_page rnd w) as (w3 & -> & Hd3).
    cbn [each_card set_elems deckChildren]. rewrite display_deck_page.
    cbn [deckChildren Deck_shuffle cards]. rewrite Hd3, Hcards. done.
  - destruct (Game_handlePlayAgain_game rnd w) as (-> & _ & _ & _ & _ & ->).
    unfold Game_handlePlayAgain.
    destruct (Game_handleRestart_page rnd (Scoreboard_closeFinalScores w))
      as (w3 & -> & Hd3).
    cbn [each_card set_elems deckChildren]. rewrite display_deck_page.
    cbn [deckChildren Deck_shuffle cards]. rewrite Hd3. cbn.
    rewrite Hcards. done.
  - done.
  - done.
  - done.
  - destruct (timers w) as [|t q]; [done|].
    destruct (due t <=? now w); [|done].
    destruct (run_timer_game t (set_timers q w)) as (-> & _ & _ & _ & -> & _ & ->).
    done.
Qed.

Lemma run_empty_unfinished (evs : list Event) (w : World) :
  empty_unfinished w → empty_unfinished (run evs w).
Proof.
  unfold run. revert w. induction evs as [|ev evs IH]; intros w Hw; [done|].
  cbn [foldl]. by apply IH, step_empty_unfinished.
Qed.

(** C8, as amended: a game made from an empty list of types has a deck
    without cards and a page without cards, and [finish] is never called:
    not when the game starts, and not after any sequence of events. *)
Theorem empty_game_never_finishes (rnd : nat → nat) (p0 : Page) (t0 : nat)
    (evs : list Event) :
  cards (Deck_new []) = [] ∧
  cards (deck (game (run evs (play [] rnd p0 t0)))) = [] ∧
  deckChildren (page (run evs (play [] rnd p0 t0))) = [] ∧
  finished (run evs (play [] rnd p0 t0)) = 0.
Proof.
  split; [done|]. apply run_empty_unfinished, play_empty.
Qed.

(** C8, as stated, fails: the game made from an empty list of types starts
    without a call of [finish], and the modal stays hidden. *)
Lemma empty_game_not_complete :
  cards (deck (game (play [] draw0 blank_page 0))) = [] ∧
  finished (play [] draw0 blank_page 0) = 0 ∧
  modalShown (page (play [] draw0 blank_page 0)) = false ∧
  finished (play [] draw0 blank_page 0) ≠ 1.
Proof. repeat split; done. Qed.

(** ** Clicks that are ignored, and one that is not *)

Lemma iter_fixed {A : Type} (f : A → A) (n : nat) (x : A) :
  f x = x → Nat.iter n f x = x.
Proof.
  intros Hf. induction n as [|n IH]; [done|]. by rewrite Nat.iter_succ, IH.
Qed.

(** X10: a click on a card of the page that has the class [open] changes
    nothing, whatever the state. *)
Lemma click_on_open_card_ignored (w : World) (p target : nat) (cardElem : Elem) :
  deckChildren (page w) !! p = Some target →
  elems (page w) !! target = Some cardElem →
  hasOpen cardElem = true →
  step w (CardClick p) = w.
Proof.
  intros Hp Hel Hopen. cbn [step]. unfold click_card. rewrite Hp, Hel.
  apply iter_fixed. by apply (Game_handleCardClick_open target cardElem).
Qed.

Lemma handlers_bound_ext (w w' : World) :
  elems (page w') = elems (page w) →
  deckChildren (page w') = deckChildren (page w) →
  handlers_bound w → handlers_bound w'.
Proof. unfold handlers_bound. intros -> ->. done. Qed.

Lemma handlers_bound_displayed (rnd : nat → nat) (w3 w' : World) :
  page w' = each_card on_click (page (display_deck rnd w3)) →
  handlers_bound w'.
Proof.
  intros Hpg. unfold handlers_bound. rewrite Hpg.
  cbn [each_card set_elems deckChildren]. split.
  - rewrite display_deck_page. cbn [deckChildren]. apply NoDup_seq.
  - intros e el He Hel.
    destruct (displayed_cards_fresh rnd w3 e He) as (el' & Hel' & _ & _ & Hm & Hh).
    cbn [each_card set_elems elems deckChildren] in Hel, Hel'.
    rewrite Hel in Hel'. injection Hel' as <-. by rewrite Hm.
Qed.

Lemma alter_lookup_preserves {A : Type} (g : Elem → A) (f : Elem → Elem)
    (i e : nat) (es : list Elem) (el : Elem) :
  (∀ x, g (f x) = g x) →
  alter f i es !! e = Some el →
  ∃ el0, es !! e = Some el0 ∧ g el = g el0.
Proof.
  intros Hf Hel. destruct (decide (i = e)) as [->|Hne].
  - rewrite list_lookup_alter_eq in Hel.
    destruct (es !! e) as [el0|]; [|done]. cbn in Hel. simplify_eq.
    by exists el0.
  - rewrite list_lookup_alter_ne in Hel by done. by exists el.
Qed.

Lemma lock_open_handlers (i e : nat) (w : World) (el : Elem) :
  elems (page (lock_open i w)) !! e = Some el →
  ∃ el0, elems (page w) !! e = Some el0 ∧ clickHandlers el = clickHandlers el0.
Proof.
  unfold lock_open, Card_lock.
  destruct (openCards (game w) !! i) as [c|]; [|by exists el].
  destruct (elem c) as [e'|]; [|by exists el].
  cbn [set_page page set_elems elems]. by apply alter_lookup_preserves.
Qed.

(** After [lockMatched] each card of the page has one click handler, or
    none when it has the class [match]. *)
Lemma Game_lockMatched_bound (w : World) :
  NoDup (deckChildren (page w)) → handlers_bound (Game_lockMatched w).
Proof.
  intros Hnd.
  destruct (Game_lockMatched_game w) as (_ & _ & _ & _ & Hdc & _).
  unfold handlers_bound. rewrite Hdc. split; [done|].
  intros e el He Hel.
  rewrite Game_lockMatched_page, for_each_elem_lookup in Hel.
  rewrite occurs_once in Hel by done.
  destruct (elems (page (lock_open 1 _)) !! e) as [x|] eqn:Hx; [|done].
  cbn in Hel. simplify_eq.
  assert (Hx0 : clickHandlers x = 0).
  { apply lock_open_handlers in Hx as (x1 & Hx1 & ->).
    apply lock_open_handlers in Hx1 as (x0 & Hx0 & ->).
    cbn [set_page page each_card set_elems elems set_matches set_game deckChildren]
      in Hx0.
    rewrite for_each_elem_lookup, occurs_once in Hx0 by done.
    destruct (elems (page w) !! e) as [y|]; [|done]. cbn in Hx0. by simplify_eq. }
  unfold on_click_not_match. destruct (hasMatch x) eqn:Hm.
  - by rewrite Hm.
  - cbn. by rewrite Hm, Hx0.
Qed.

Lemma Game_handleCardClick_bound (target : nat) (w : World) :
  handlers_bound w → handlers_bound (Game_handleCardClick target w).
Proof.
  intros Hw. unfold Game_handleCardClick.
  destruct (elems (page w) !! target) as [cardElem|]; [|done].
  destruct (hasOpen cardElem); [done|]. cbv zeta.
  set (opened := Game_openCard target cardElem (Scoreboard_start w)).
  assert (Hopened : handlers_bound opened).
  { destruct (Game_openCard_game target cardElem (Scoreboard_start w))
      as (_ & _ & _ & _ & Hpg & _).
    destruct (Scoreboard_start_game w) as (_ & _ & _ & _ & Hpg' & _).
    apply (handlers_bound_ext w); [| |done]; subst opened; congruence. }
  destruct (1 <? _); [|done].
  set (resolved := if Game_isMatched opened then Game_lockMatched opened
                   else Game_hideUnmatched opened).
  assert (Hres : handlers_bound resolved).
  { subst resolved. destruct (Game_isMatched opened).
    - apply Game_lockMatched_bound, Hopened.
    - destruct (Game_hideUnmatched_game opened) as (_ & Hpg & _).
      apply (handlers_bound_ext opened); [| |done]; congruence. }
  destruct (Scoreboard_incrementMoves_game (set_openCards [] resolved))
    as (_ & _ & _ & _ & Hes & Hdc & _).
  by apply (handlers_bound_ext resolved).
Qed.

(** The callback of a timer changes neither the class [match] nor the
    click handlers of an element, and creates no element. *)
Lemma run_timer_elems (t : Timer) (w : World) (e : nat) (el : Elem) :
  elems (page (run_timer t w)) !! e = Some el →
  ∃ el0, elems (page w) !! e = Some el0
         ∧ hasMatch el = hasMatch el0
         ∧ clickHandlers el = clickHandlers el0.
Proof.
  unfold run_timer, Card_show_callback, Card_hide_callback.
  destruct (action t) as [c|c|startTime].
  - destruct (elem c) as [e'|]; cbn [set_page page set_elems elems];
      [|by exists el].
    intros Hel.
    destruct (alter_lookup_preserves hasMatch addClass_open_show e' e _ el
                ltac:(done) Hel) as (el0 & Hel0 & ?).
    destruct (alter_lookup_preserves clickHandlers addClass_open_show e' e _ el
                ltac:(done) Hel) as (el0' & Hel0' & ?).
    exists el0. split; [done|]. split; [done|]. congruence.
  - destruct (elem c) as [e'|]; cbn [set_page page set_elems elems];
      [|by exists el].
    intros Hel.
    destruct (alter_lookup_preserves hasMatch removeClass_open_show e' e _ el
                ltac:(done) Hel) as (el0 & Hel0 & ?).
    destruct (alter_lookup_preserves clickHandlers removeClass_open_show e' e _ el
                ltac:(done) Hel) as (el0' & Hel0' & ?).
    exists el0. split; [done|]. split; [done|]. congruence.
  - by exists el.
Qed.

Lemma run_timer_elems_length (t : Timer) (w : World) :
  length (elems (page (run_timer t w))) = length (elems (page w)).
Proof.
  unfold run_timer, Card_show_callback, Card_hide_callback.
  destruct (action t) as [c|c|startTime]; [| |done];
    destruct (elem c); cbn [set_page page set_elems elems];
    by rewrite ?length_alter.
Qed.

Lemma run_timer_bound (t : Timer) (q : list Timer) (w : World) :
  handlers_bound w → handlers_bound (run_timer t (set_timers q w)).
Proof.
  intros [Hnd Hw].
  destruct (run_timer_game t (set_timers q w)) as (_ & _ & _ & _ & Hdc & _).
  unfold handlers_bound. rewrite Hdc. cbn [set_timers page]. split; [done|].
  intros e el He Hel.
  apply run_timer_elems in Hel as (el0 & Hel0 & -> & ->).
  by apply (Hw e el0).
Qed.

Lemma step_bound (w : World) (ev : Event) :
  handlers_bound w → handlers_bound (step w ev).
Proof.
  intros Hw. destruct ev as [p|rnd|rnd| | |ms|]; cbn [step].
  - unfold click_card.
    destruct (deckChildren (page w) !! p) as [target|]; [|done].
    destruct (elems (page w) !! target) as [el|]; [|done].
    induction (clickHandlers el) as [|n IH]; [done|].
    rewrite Nat.iter_succ. by apply Game_handleCardClick_bound.
  - destruct (Game_handleRestart_page rnd w) as (w3 & Hpg & _).
    by apply (handlers_bound_displayed rnd w3).
  - unfold Game_handlePlayAgain.
    destruct (Game_handleRestart_page rnd (Scoreboard_closeFinalScores w))
      as (w3 & Hpg & _).
    by apply (handlers_bound_displayed rnd w3).
  - by apply (handlers_bound_ext w).
  - by apply (handlers_bound_ext w).
  - by apply (handlers_bound_ext w).
  - destruct (timers w) as [|t q]; [done|].
    destruct (due t <=? now w); [|done].
    by apply run_timer_bound.
Qed.

Lemma run_bound (evs : list Event) (w : World) :
  handlers_bound w → handlers_bound (run evs w).
Proof.
  unfold run. revert w. induction evs as [|ev evs IH]; intros w Hw; [done|].
  cbn [foldl]. by apply IH, step_bound.
Qed.

Lemma play_bound (cardTypes : list string) (rnd : nat → nat) (p0 : Page)
    (t0 : nat) :
  handlers_bound (play cardTypes rnd p0 t0).
Proof.
  apply (handlers_bound_displayed rnd
           {| game := Game_new (Deck_new cardTypes); page := p0; timers := [];
              nextTimerId := 1; now := t0; finished := 0 |}).
  reflexivity.
Qed.

(** X9: in every state that the game reaches, a click on a card that has
    the class [match] changes nothing: the card has no click handler. *)
Lemma click_on_matched_card_ignored (cardTypes : list string) (rnd : nat → nat)
    (p0 : Page) (t0 : nat) (evs : list Event) (p target : nat) (cardElem : Elem) :
  let w := run evs (play cardTypes rnd p0 t0) in
  deckChildren (page w) !! p = Some target →
  elems (page w) !! target = Some cardElem →
  hasMatch cardElem = true →
  step w (CardClick p) = w.
Proof.
  intros w Hp Hel Hmatch.
  assert (Hw : handlers_bound w) by apply run_bound, play_bound.
  cbn [step]. unfold click_card. rewrite Hp, Hel.
  destruct Hw as [_ Hw]. rewrite (Hw target cardElem), Hmatch; [done| |done].
  by apply list_elem_of_lookup_2 in Hp.
Qed.

(** In every state that the game reaches, a card of the page without the
    class [match] has one click handler. *)
Lemma unmatched_card_has_handler (cardTypes : list string) (rnd : nat → nat)
    (p0 : Page) (t0 : nat) (evs : list Event) (p target : nat) (cardElem : Elem) :
  let w := run evs (play cardTypes rnd p0 t0) in
  deckChildren (page w) !! p = Some target →
  elems (page w) !! target = Some cardElem →
  hasMatch cardElem = false →
  clickHandlers cardElem = 1.
Proof.
  intros w Hp Hel Hmatch.
  assert (Hw : handlers_bound w) by apply run_bound, play_bound.
  destruct Hw as [_ Hw]. rewrite (Hw target cardElem), Hmatch; [done| |done].
  by apply list_elem_of_lookup_2 in Hp.
Qed.

(** ** The open cards are on the page *)

Lemma open_on_page_ext (w w' : World) :
  openCards (game w') = openCards (game w) →
  length (elems (page w')) = length (elems (page w)) →
  open_on_page w → open_on_page w'.
Proof. unfold open_on_page. intros -> ->. done. Qed.

Lemma open_on_page_none (w : World) :
  openCards (game w) = [] → open_on_page w.
Proof. unfold open_on_page. intros ->. done. Qed.

Lemma Game_handleCardClick_on_page (target : nat) (w : World) :
  open_on_page w → open_on_page (Game_handleCardClick target w).
Proof.
  intros Hw. unfold Game_handleCardClick.
  destruct (elems (page w) !! target) as [cardElem|] eqn:Hel; [|done].
  destruct (hasOpen cardElem); [done|]. cbv zeta.
  set (opened := Game_openCard target cardElem (Scoreboard_start w)).
  destruct (Game_openCard_game target cardElem (Scoreboard_start w))
    as (_ & _ & Hoc & _ & Hpg & _).
  destruct (Scoreboard_start_game w) as (_ & _ & Hoc' & _ & Hpg' & _).
  fold opened in Hoc, Hpg.
  destruct (1 <? _).
  - apply open_on_page_none.
    by destruct (Scoreboard_incrementMoves_game
                   (set_openCards []
                      (if Game_isMatched opened then Game_lockMatched opened
                       else Game_hideUnmatched opened))) as (_ & _ & -> & _).
  - unfold open_on_page. rewrite Hoc, Hoc', Hpg, Hpg'.
    apply Forall_app. split; [exact Hw|].
    apply Forall_singleton. exists target. split; [done|].
    by apply lookup_lt_Some in Hel.
Qed.

Lemma step_on_page (w : World) (ev : Event) :
  open_on_page w → open_on_page (step w ev).
Proof.
  intros Hw. destruct ev as [p|rnd|rnd| | |ms|]; cbn [step].
  - unfold click_card.
    destruct (deckChildren (page w) !! p) as [target|]; [|done].
    destruct (elems (page w) !! target) as [el|]; [|done].
    induction (clickHandlers el) as [|n IH]; [done|].
    rewrite Nat.iter_succ. by apply Game_handleCardClick_on_page.
  - apply open_on_page_none.
    by destruct (Game_handleRestart_game rnd w) as (_ & _ & -> & _).
  - apply open_on_page_none.
    by destruct (Game_handlePlayAgain_game rnd w) as (_ & _ & -> & _).
  - by apply (open_on_page_ext w).
  - by apply (open_on_page_ext w).
  - by apply (open_on_page_ext w).
  - destruct (timers w) as [|t q]; [done|].
    destruct (due t <=? now w); [|done].
    apply (open_on_page_ext w); [| |done].
    + by destruct (run_timer_game t (set_timers q w)) as (_ & _ & -> & _).
    + by rewrite run_timer_elems_length.
Qed.

Lemma run_on_page (evs : list Event) (w : World) :
  open_on_page w → open_on_page (run evs w).
Proof.
  unfold run. revert w. induction evs as [|ev evs IH]; intros w Hw; [done|].
  cbn [foldl]. by apply IH, step_on_page.
Qed.

(** In every state that the game reaches, a pending card refers to an
    element of the store. *)
Lemma pending_card_on_page (cardTypes : list string) (rnd : nat → nat)
    (p0 : Page) (t0 : nat) (evs : list Event) (c1 : Card) :
  let w := run evs (play cardTypes rnd p0 t0) in
  openCards (game w) = [c1] →
  ∃ e1, elem c1 = Some e1 ∧ is_Some (elems (page w) !! e1).
Proof.
  intros w Hoc.
  assert (Hw : open_on_page w).
  { apply run_on_page, open_on_page_none, play_openCards. }
  unfold open_on_page in Hw. rewrite Hoc in Hw.
  apply Forall_singleton in Hw as (e1 & He1 & Hlt).
  exists e1. split; [done|]. by apply lookup_lt_is_Some_2.
Qed.

(** The deck keeps the number of types it was made with. *)
Lemma run_cardTypeCount (cardTypes : list string) (rnd : nat → nat) (p0 : Page)
    (t0 : nat) (evs : list Event) :
  cardTypeCount (deck (game (run evs (play cardTypes rnd p0 t0))))
  = length cardTypes.
Proof.
  assert (Hplay : cardTypeCount (deck (game (play cardTypes rnd p0 t0)))
                  = length cardTypes) by reflexivity.
  revert Hplay. generalize (play cardTypes rnd p0 t0). unfold run.
  induction evs as [|ev evs IH]; intros w Hw; [done|].
  cbn [foldl]. apply IH. rewrite <- Hw.
  destruct ev as [p|r|r| | |ms|]; cbn [step].
  - unfold click_card.
    destruct (deckChildren (page w) !! p) as [target|]; [|done].
    destruct (elems (page w) !! target) as [el|]; [|done].
    induction (clickHandlers el) as [|n IHn]; [done|].
    rewrite Nat.iter_succ, <- IHn.
    generalize (Nat.iter n (Game_handleCardClick target) w). intros v.
    unfold Game_handleCardClick.
    destruct (elems (page v) !! target) as [cardElem|]; [|done].
    destruct (hasOpen cardElem); [done|]. cbv zeta.
    set (opened := Game_openCard target cardElem (Scoreboard_start v)).
    assert (Hopened : deck (game opened) = deck (game v)).
    { subst opened.
      destruct (Game_openCard_game target cardElem (Scoreboard_start v)) as (-> & _).
      by destruct (Scoreboard_start_game v) as (-> & _). }
    destruct (1 <? _); [|by rewrite Hopened].
    destruct (Scoreboard_incrementMoves_game
                (set_openCards []
                   (if Game_isMatched opened then Game_lockMatched opened
                    else Game_hideUnmatched opened))) as (-> & _).
    cbn [set_openCards set_game game deck].
    destruct (Game_isMatched opened).
    + destruct (Game_lockMatched_game opened) as (-> & _). by rewrite Hopened.
    + destruct (Game_hideUnmatched_game opened) as (-> & _). by rewrite Hopened.
  - by destruct (Game_handleRestart_game r w) as (-> & _).
  - by destruct (Game_handlePlayAgain_game r w) as (-> & _).
  - done.
  - done.
  - done.
  - destruct (timers w) as [|t q]; [done|].
    destruct (due t <=? now w); [|done].
    by destruct (run_timer_game t (set_timers q w)) as (-> & _).
Qed.

(** C5 fails on the code: a second click on the pending card that comes
    before the timer of [Card.show] has given the card the class [open] is
    handled as the reveal of a second card.  The card is compared with
    itself, locked as matched, and counted as a match and as a move. *)
Theorem second_click_on_pending_card_matches_it :
  let w1 := run [CardClick 0] (main draw0 blank_page 0) in
  let w2 := step w1 (CardClick 0) in
  openCards (game w1) = [mkCard "anchor" (Some 0)] ∧
  matches (game w1) = 0 ∧ moves (sb w1) = 0 ∧
  openCards (game w2) = [] ∧
  matches (game w2) = 1 ∧ moves (sb w2) = 1 ∧
  hasMatch <$> elems (page w2) !! 0 = Some true ∧
  w2 ≠ w1.
Proof.
  intros w1 w2.
  repeat (split; [vm_compute; reflexivity|]).
  intros Heq. apply (f_equal (λ w, matches (game w))) in Heq.
  vm_compute in Heq. discriminate.
Qed.

(** Once the timer of [Card.show] has fired, the second click on the
    pending card changes nothing. *)
Lemma second_click_on_shown_card_ignored :
  let w1 := run [CardClick 0; Elapse 50; TimerFires] (main draw0 blank_page 0) in
  openCards (game w1) = [mkCard "anchor" (Some 0)] ∧
  step w1 (CardClick 0) = w1.
Proof. split; vm_compute; reflexivity. Qed.

(** ** The second reveal of a turn *)

Lemma run_snoc (evs : list Event) (ev : Event) (w : World) :
  run (evs ++ [ev]) w = step (run evs w) ev.
Proof. unfold run. by rewrite foldl_app. Qed.

(** C2: in every state that the game reaches, when a card that is neither
    open nor matched is clicked while one card is pending, and its type is
    the type of the pending card, then after the click the elements of
    both cards are in the matched state, no card is pending, the moves and
    the matches have grown by one, and [finish] has been called if the
    matches have reached the number of types of the deck. *)
Theorem second_card_of_equal_type (cardTypes : list string) (rnd : nat → nat)
    (p0 : Page) (t0 : nat) (evs : list Event) (p target : nat)
    (cardElem : Elem) (c1 : Card) :
  let w := run evs (play cardTypes rnd p0 t0) in
  deckChildren (page w) !! p = Some target →
  elems (page w) !! target = Some cardElem →
  hasOpen cardElem = false →
  hasMatch cardElem = false →
  openCards (game w) = [c1] →
  Card_determineType cardElem = type c1 →
  let w' := step w (CardClick p) in
  (∃ e1 el, elem c1 = Some e1 ∧ elems (page w') !! e1 = Some el ∧ matched_state el) ∧
  (∃ el, elems (page w') !! target = Some el ∧ matched_state el) ∧
  openCards (game w') = [] ∧
  moves (sb w') = moves (sb w) + 1 ∧
  matches (game w') = matches (game w) + 1 ∧
  cardTypeCount (deck (game w')) = length cardTypes ∧
  (matches (game w') = length cardTypes → finished w' = finished w + 1).
Proof.
  intros w Hp Hel Hopen Hmatch Hoc Hty w'.
  pose proof (unmatched_card_has_handler cardTypes rnd p0 t0 evs p target
                cardElem Hp Hel Hmatch) as Hh.
  destruct (pending_card_on_page cardTypes rnd p0 t0 evs c1 Hoc)
    as (e1 & He1 & Hel1).
  destruct (equal_type_step w p target e1 cardElem c1 Hp Hel Hh Hopen Hoc He1
              Hel1 Hty) as ((el1 & Hl1 & Hm1) & Htarget & Hnone & Hmoves & Hmatches & Hfin).
  assert (Hcount : cardTypeCount (deck (game w')) = length cardTypes).
  { subst w' w. rewrite <- run_snoc. apply run_cardTypeCount. }
  split; [by exists e1, el1|].
  do 5 (split; [done|]).
  intros Hall. apply Hfin. fold w'. by rewrite Hcount.
Qed.

Lemma second_card_of_equal_type_witness :
  let w := run [CardClick 0] (play ["anchor"; "bolt"] draw0 blank_page 0) in
  let w' := step w (CardClick 3) in
  (∃ e1 el, elem (mkCard "anchor" (Some 0)) = Some e1
            ∧ elems (page w') !! e1 = Some el ∧ matched_state el) ∧
  (∃ el, elems (page w') !! 3 = Some el ∧ matched_state el) ∧
  openCards (game w') = [] ∧
  moves (sb w') = moves (sb w) + 1 ∧
  matches (game w') = matches (game w) + 1 ∧
  cardTypeCount (deck (game w')) = 2 ∧
  (matches (game w') = 2 → finished w' = finished w + 1).
Proof.
  apply (second_card_of_equal_type ["anchor"; "bolt"] draw0 blank_page 0
           [CardClick 0] 3 3 (mkElem "fa fa-anchor" false false false 1)
           (mkCard "anchor" (Some 0)));
    vm_compute; reflexivity.
Defined.

Lemma other_type_step_elems (w : World) (p target : nat) (cardElem : Elem)
    (c1 : Card) :
  deckChildren (page w) !! p = Some target →
  elems (page w) !! target = Some cardElem →
  clickHandlers cardElem = 1 →
  hasOpen cardElem = false →
  openCards (game w) = [c1] →
  Card_determineType cardElem ≠ type c1 →
  elems (page (step w (CardClick p))) = elems (page w).
Proof.
  intros Hp Hel Hh Hopen Hoc Hty.
  rewrite (click_card_one_handler p target cardElem w Hp Hel Hh).
  destruct (Game_handleCardClick_second target cardElem c1 w Hel Hopen Hoc)
    as [_ ->].
  set (opened := Game_openCard target cardElem (Scoreboard_start w)).
  assert (Hne : Card_isEqual c1 (Card_fromElem target cardElem) = false).
  { unfold Card_isEqual. apply bool_decide_eq_false.
    intros Heq. apply Hty. symmetry. exact Heq. }
  rewrite Hne.
  destruct (Scoreboard_incrementMoves_game (set_openCards [] (Game_hideUnmatched opened)))
    as (_ & _ & _ & _ & -> & _).
  cbn [set_openCards set_game page].
  destruct (Game_hideUnmatched_game opened) as (_ & -> & _).
  subst opened.
  destruct (Game_openCard_game target cardElem (Scoreboard_start w))
    as (_ & _ & _ & _ & -> & _).
  by destruct (Scoreboard_start_game w) as (_ & _ & _ & _ & -> & _).
Qed.

(** C3: in every state that the game reaches, when a card that is neither
    open nor matched is clicked while one card is pending, and its type is
    not the type of the pending card, then the click adds one move, leaves
    the matches as they are and leaves no card pending; it changes no card
    of the page, and it starts for each of the two cards a timer, due
    800 ms later, whose callback hides the card. *)
Theorem second_card_of_other_type (cardTypes : list string) (rnd : nat → nat)
    (p0 : Page) (t0 : nat) (evs : list Event) (p target : nat)
    (cardElem : Elem) (c1 : Card) :
  let w := run evs (play cardTypes rnd p0 t0) in
  deckChildren (page w) !! p = Some target →
  elems (page w) !! target = Some cardElem →
  hasOpen cardElem = false →
  hasMatch cardElem = false →
  openCards (game w) = [c1] →
  Card_determineType cardElem ≠ type c1 →
  let w' := step w (CardClick p) in
  let c2 := Card_fromElem target cardElem in
  moves (sb w') = moves (sb w) + 1 ∧
  matches (game w') = matches (game w) ∧
  openCards (game w') = [] ∧
  finished w' = finished w ∧
  elems (page w') = elems (page w) ∧
  ∃ (t1 t2 : Timer) (e1 : nat),
    t1 ∈ timers w' ∧ action t1 = HideCard c1 ∧ due t1 = now w + 800 ∧
    t2 ∈ timers w' ∧ action t2 = HideCard c2 ∧ due t2 = now w + 800 ∧
    elem c1 = Some e1 ∧ elem c2 = Some target ∧
    (∀ v : World, is_Some (elems (page v) !! e1) →
       ∃ el, elems (page (run_timer t1 v)) !! e1 = Some el ∧ hidden_state el) ∧
    (∀ v : World, is_Some (elems (page v) !! target) →
       ∃ el, elems (page (run_timer t2 v)) !! target = Some el ∧ hidden_state el).
Proof.
  intros w Hp Hel Hopen Hmatch Hoc Hty w' c2.
  pose proof (unmatched_card_has_handler cardTypes rnd p0 t0 evs p target
                cardElem Hp Hel Hmatch) as Hh.
  destruct (pending_card_on_page cardTypes rnd p0 t0 evs c1 Hoc)
    as (e1 & He1 & _).
  destruct (other_type_step w p target e1 cardElem c1 Hp Hel Hh Hopen Hoc He1 Hty)
    as (Hmoves & Hmatches & Hnone & Hfin & (id1 & id2 & Ht1 & Ht2) & Hhide1 & Hhide2).
  do 4 (split; [done|]).
  split; [by apply (other_type_step_elems w p target cardElem c1)|].
  exists (mkTimer id1 (now w + 800) (HideCard c1)),
         (mkTimer id2 (now w + 800) (HideCard c2)), e1.
  do 8 (split; [done|]).
  split; intros v Hv; [by apply Hhide1 | by apply Hhide2].
Qed.

Lemma second_card_of_other_type_witness :
  let w := run [CardClick 0] (play ["anchor"; "bolt"] draw0 blank_page 0) in
  let w' := step w (CardClick 1) in
  moves (sb w') = moves (sb w) + 1 ∧
  matches (game w') = matches (game w) ∧
  openCards (game w') = [] ∧
  elems (page w') = elems (page w).
Proof.
  assert (Hne : Card_determineType (mkElem "fa fa-bolt" false false false 1)
                ≠ type (mkCard "anchor" (Some 0))) by (vm_compute; discriminate).
  destruct (second_card_of_other_type ["anchor"; "bolt"] draw0 blank_page 0
              [CardClick 0] 1 1 (mkElem "fa fa-bolt" false false false 1)
              (mkCard "anchor" (Some 0))
              eq_refl eq_refl eq_refl eq_refl eq_refl Hne)
    as (H1 & H2 & H3 & _ & H5 & _).
  repeat split; assumption.
Defined.

(** * Further properties *)

(** ** Elements keep their symbol and their match *)

Lemma evolves_refl (el : Elem) : evolves el el.
Proof. done. Qed.

Lemma evolves_trans (a b c : Elem) : evolves a b → evolves b c → evolves a c.
Proof. intros [Hi Hm] [Hi' Hm']. split; [congruence | auto]. Qed.

Lemma store_evolves_refl (es : list Elem) : store_evolves es es.
Proof. intros e el Hel. exists el. split; [done | apply evolves_refl]. Qed.

Lemma store_evolves_eq (es es' : list Elem) : es' = es → store_evolves es es'.
Proof. intros ->. apply store_evolves_refl. Qed.

Lemma store_evolves_trans (a b c : list Elem) :
  store_evolves a b → store_evolves b c → store_evolves a c.
Proof.
  intros Hab Hbc e el Hel.
  destruct (Hab e el Hel) as (el' & Hel' & Hev).
  destruct (Hbc e el' Hel') as (el'' & Hel'' & Hev').
  exists el''. split; [done|]. by apply (evolves_trans el el').
Qed.

Lemma evolves_iter (f : Elem → Elem) (n : nat) (el : Elem) :
  (∀ x, evolves x (f x)) → evolves el (Nat.iter n f el).
Proof.
  intros Hf. induction n as [|n IH]; [apply evolves_refl|].
  rewrite Nat.iter_succ. by apply (evolves_trans el (Nat.iter n f el)).
Qed.

Lemma alter_store_evolves (f : Elem → Elem) (i : nat) (es : list Elem) :
  (∀ x, evolves x (f x)) → store_evolves es (alter f i es).
Proof.
  intros Hf e el Hel. destruct (decide (i = e)) as [->|Hne].
  - rewrite list_lookup_alter_eq, Hel. exists (f el). split; [done | apply Hf].
  - rewrite list_lookup_alter_ne by done. exists el.
    split; [done | apply evolves_refl].
Qed.

Lemma for_each_store_evolves (f : Elem → Elem) (ids : list nat)
    (es : list Elem) :
  (∀ x, evolves x (f x)) → store_evolves es (for_each_elem f ids es).
Proof.
  intros Hf e el Hel. rewrite for_each_elem_lookup, Hel.
  eexists. split; [reflexivity|]. by apply evolves_iter.
Qed.

Lemma app_store_evolves (es new : list Elem) : store_evolves es (es ++ new).
Proof.
  intros e el Hel. exists el. split; [|apply evolves_refl].
  by apply lookup_app_l_Some.
Qed.

Lemma evolves_on_click_not_match (x : Elem) : evolves x (on_click_not_match x).
Proof. unfold on_click_not_match. by destruct (hasMatch x). Qed.

Lemma lock_open_store_evolves (i : nat) (w : World) :
  store_evolves (elems (page w)) (elems (page (lock_open i w))).
Proof.
  unfold lock_open, Card_lock.
  destruct (openCards (game w) !! i) as [c|]; [|apply store_evolves_refl].
  destruct (elem c) as [e|]; [|apply store_evolves_refl].
  cbn [set_page page set_elems elems]. by apply alter_store_evolves.
Qed.

Lemma Game_lockMatched_store_evolves (w : World) :
  store_evolves (elems (page w)) (elems (page (Game_lockMatched w))).
Proof.
  rewrite Game_lockMatched_page.
  set (w1 := set_page (each_card off_click (page w))
                      (set_matches (matches (game w) + 1) w)).
  apply (store_evolves_trans _ (elems (page w1))).
  { subst w1. cbn [set_page page each_card set_elems elems].
    by apply for_each_store_evolves. }
  apply (store_evolves_trans _ (elems (page (lock_open 0 w1))));
    [apply lock_open_store_evolves|].
  apply (store_evolves_trans _ (elems (page (lock_open 1 (lock_open 0 w1)))));
    [apply lock_open_store_evolves|].
  apply for_each_store_evolves, evolves_on_click_not_match.
Qed.

(** What [handleCardClick] leaves alone whatever the card: the deck and
    the children of [.deck]; the elements only evolve. *)
Lemma Game_handleCardClick_keeps (target : nat) (w : World) :
  deck (game (Game_handleCardClick target w)) = deck (game w) ∧
  deckChildren (page (Game_handleCardClick target w)) = deckChildren (page w) ∧
  store_evolves (elems (page w)) (elems (page (Game_handleCardClick target w))).
Proof.
  unfold Game_handleCardClick.
  destruct (elems (page w) !! target) as [cardElem|];
    [|by split; [|split; [|apply store_evolves_refl]]].
  destruct (hasOpen cardElem);
    [by split; [|split; [|apply store_evolves_refl]]|].
  cbv zeta.
  set (opened := Game_openCard target cardElem (Scoreboard_start w)).
  assert (Hopened : deck (game opened) = deck (game w)
                    ∧ page opened = page w).
  { subst opened.
    destruct (Game_openCard_game target cardElem (Scoreboard_start w))
      as (-> & _ & _ & _ & -> & _).
    by destruct (Scoreboard_start_game w) as (-> & _ & _ & _ & -> & _). }
  destruct Hopened as [Hd Hpg].
  destruct (1 <? _).
  - destruct (Scoreboard_incrementMoves_game
                (set_openCards []
                   (if Game_isMatched opened then Game_lockMatched opened
                    else Game_hideUnmatched opened)))
      as (-> & _ & _ & _ & -> & -> & _).
    cbn [set_openCards set_game game deck page].
    destruct (Game_isMatched opened).
    + destruct (Game_lockMatched_game opened) as (-> & _ & _ & _ & -> & _).
      rewrite Hd, <- Hpg. split; [done|]. split; [done|].
      apply Game_lockMatched_store_evolves.
    + destruct (Game_hideUnmatched_game opened) as (-> & -> & _).
      rewrite Hd, Hpg. split; [done|]. split; [done|]. apply store_evolves_refl.
  - rewrite Hd, Hpg. split; [done|]. split; [done|]. apply store_evolves_refl.
Qed.

Lemma iter_handleCardClick_keeps (n target : nat) (w : World) :
  deck (game (Nat.iter n (Game_handleCardClick target) w)) = deck (game w) ∧
  deckChildren (page (Nat.iter n (Game_handleCardClick target) w))
  = deckChildren (page w) ∧
  store_evolves (elems (page w))
                (elems (page (Nat.iter n (Game_handleCardClick target) w))).
Proof.
  induction n as [|n (IHd & IHdc & IHes)];
    [by split; [|split; [|apply store_evolves_refl]]|].
  rewrite Nat.iter_succ.
  destruct (Game_handleCardClick_keeps target
              (Nat.iter n (Game_handleCardClick target) w)) as (-> & -> & Hes).
  split; [done|]. split; [done|].
  by apply (store_evolves_trans _ _ _ IHes).
Qed.

Lemma run_timer_store_evolves (t : Timer) (w : World) :
  store_evolves (elems (page w)) (elems (page (run_timer t w))).
Proof.
  unfold run_timer, Card_show_callback, Card_hide_callback.
  destruct (action t) as [c|c|startTime].
  - destruct (elem c); cbn [set_page page set_elems elems];
      [by apply alter_store_evolves | apply store_evolves_refl].
  - destruct (elem c); cbn [set_page page set_elems elems];
      [by apply alter_store_evolves | apply store_evolves_refl].
  - apply store_evolves_refl.
Qed.

(** The page after a restart: the old elements without their handlers,
    followed by the new elements with one handler each. *)
Lemma Game_handleRestart_store (rnd : nat → nat) (w : World) :
  ∃ w3, page (Game_handleRestart rnd w)
        = each_card on_click (page (display_deck rnd w3)) ∧
        deck (game w3) = deck (game w) ∧
        elems (page w3)
        = for_each_elem off_click (deckChildren (page w)) (elems (page w)).
Proof.
  exists (set_openCards []
            (set_matches 0
               (Scoreboard_reset (set_page (each_card off_click (page w)) w)))).
  split; [reflexivity|].
  cbn [set_openCards set_matches set_game game deck page].
  destruct (Scoreboard_reset_game (set_page (each_card off_click (page w)) w))
    as (-> & _ & _ & _ & -> & _).
  done.
Qed.

Lemma Game_handleRestart_store_evolves (rnd : nat → nat) (w : World) :
  store_evolves (elems (page w)) (elems (page (Game_handleRestart rnd w))).
Proof.
  destruct (Game_handleRestart_store rnd w) as (w3 & -> & _ & Hes).
  rewrite display_deck_page. cbn [each_card set_elems elems deckChildren].
  apply (store_evolves_trans _ (elems (page w3)));
    [rewrite Hes; by apply for_each_store_evolves|].
  apply (store_evolves_trans _ (elems (page w3)
           ++ ((λ c, elem_of_markup (Card_toHtml c))
                 <$> cards (Deck_shuffle rnd (deck (game w3))))));
    [apply app_store_evolves | by apply for_each_store_evolves].
Qed.

Lemma step_store_evolves (w : World) (ev : Event) :
  store_evolves (elems (page w)) (elems (page (step w ev))).
Proof.
  destruct ev as [p|rnd|rnd| | |ms|]; cbn [step].
  - unfold click_card.
    destruct (deckChildren (page w) !! p) as [target|]; [|apply store_evolves_refl].
    destruct (elems (page w) !! target) as [el|]; [|apply store_evolves_refl].
    apply iter_handleCardClick_keeps.
  - apply Game_handleRestart_store_evolves.
  - unfold Game_handlePlayAgain.
    apply (Game_handleRestart_store_evolves rnd (Scoreboard_closeFinalScores w)).
  - apply store_evolves_refl.
  - apply store_evolves_refl.
  - apply store_evolves_refl.
  - destruct (timers w) as [|t q]; [apply store_evolves_refl|].
    destruct (due t <=? now w); [|apply store_evolves_refl].
    apply (run_timer_store_evolves t (set_timers q w)).
Qed.

Lemma step_same_game_keeps (w : World) (ev : Event) :
  same_game ev →
  deck (game (step w ev)) = deck (game w) ∧
  deckChildren (page (step w ev)) = deckChildren (page w).
Proof.
  destruct ev as [p|rnd|rnd| | |ms|]; cbn [step same_game]; try done.
  - intros _. unfold click_card.
    destruct (deckChildren (page w) !! p) as [target|]; [|done].
    destruct (elems (page w) !! target) as [el|]; [|done].
    by destruct (iter_handleCardClick_keeps (clickHandlers el) target w)
      as (-> & -> & _).
  - intros _. destruct (timers w) as [|t q]; [done|].
    destruct (due t <=? now w); [|done].
    by destruct (run_timer_game t (set_timers q w)) as (-> & _ & _ & _ & -> & _).
Qed.

(** X1: as long as the game is not restarted, the cards of the page stay
    the same elements, each keeps its symbol, and a card that has the
    class [match] keeps it: no event takes a match back. *)
Theorem matched_cards_stay_matched (w : World) (evs : list Event) :
  Forall same_game evs →
  deckChildren (page (run evs w)) = deckChildren (page w) ∧
  ∀ e el, elems (page w) !! e = Some el →
          ∃ el', elems (page (run evs w)) !! e = Some el' ∧
                 iconClass el' = iconClass el ∧
                 (hasMatch el = true → hasMatch el' = true).
Proof.
  unfold run. revert w.
  induction evs as [|ev evs IH]; intros w Hevs.
  - split; [done|]. intros e el Hel. by exists el.
  - apply Forall_cons in Hevs as [Hev Hevs]. cbn [foldl].
    destruct (IH (step w ev) Hevs) as [Hdc Hels].
    destruct (step_same_game_keeps w ev Hev) as [_ Hdc'].
    split; [congruence|]. intros e el Hel.
    destruct (step_store_evolves w ev e el Hel) as (el1 & Hel1 & Hi1 & Hm1).
    destruct (Hels e el1 Hel1) as (el2 & Hel2 & Hi2 & Hm2).
    exists el2. split; [done|]. split; [congruence | auto].
Qed.

Lemma matched_cards_stay_matched_witness :
  let w := step one_pending (CardClick 3) in
  let w' := run [Elapse 50; TimerFires; CardClick 1; NoClick] w in
  deckChildren (page w') = deckChildren (page w) ∧
  ∃ el', elems (page w') !! 3 = Some el' ∧
         iconClass el' = "fa fa-anchor" ∧ hasMatch el' = true.
Proof.
  intros w w'.
  assert (Hevs : Forall same_game [Elapse 50; TimerFires; CardClick 1; NoClick]).
  { repeat constructor. }
  destruct (matched_cards_stay_matched w _ Hevs) as [Hdc Hels].
  split; [exact Hdc|].
  destruct (Hels 3 (mkElem "fa fa-anchor" false false true 0))
    as (el' & Hel' & Hi & Hm); [by vm_compute|].
  exists el'. split; [exact Hel'|]. split; [exact Hi | by apply Hm].
Defined.

(** ** The deck and the page of a game *)

Lemma play_deck (cardTypes : list string) (rnd : nat → nat) (p0 : Page)
    (t0 : nat) :
  deck (game (play cardTypes rnd p0 t0)) = Deck_shuffle rnd (Deck_new cardTypes).
Proof. reflexivity. Qed.

Lemma step_deck_Permutation (w : World) (ev : Event) :
  cards (deck (game (step w ev))) ≡ₚ cards (deck (game w)) ∧
  cardTypeCount (deck (game (step w ev))) = cardTypeCount (deck (game w)).
Proof.
  destruct ev as [p|rnd|rnd| | |ms|];
    try match goal with
        | |- context [step w ?ev] =>
            destruct (step_same_game_keeps w ev I) as [-> _]; split; reflexivity
        end.
  - cbn [step]. destruct (Game_handleRestart_game rnd w) as (-> & _).
    split; [apply shuffle_loop_Permutation | done].
  - cbn [step]. destruct (Game_handlePlayAgain_game rnd w) as (-> & _).
    split; [apply shuffle_loop_Permutation | done].
Qed.

Lemma run_deck_Permutation (evs : list Event) (w : World) :
  cards (deck (game (run evs w))) ≡ₚ cards (deck (game w)).
Proof.
  unfold run. revert w. induction evs as [|ev evs IH]; intros w; [done|].
  cbn [foldl]. rewrite IH. apply step_deck_Permutation.
Qed.

(** X2: in every state that the game reaches, the deck holds the cards it
    was made with, in some order: its cards are a permutation of the cards
    of the new deck, twice as many as there are types, and two of each type
    when the types are distinct. *)
Theorem deck_composition_kept (cardTypes : list string) (rnd : nat → nat)
    (p0 : Page) (t0 : nat) (evs : list Event) :
  let w := run evs (play cardTypes rnd p0 t0) in
  cards (deck (game w)) ≡ₚ cards (Deck_new cardTypes) ∧
  length (cards (deck (game w))) = 2 * length cardTypes ∧
  (NoDup cardTypes →
   ∀ ty, ty ∈ cardTypes → count_type ty (cards (deck (game w))) = 2).
Proof.
  intros w.
  assert (Hperm : cards (deck (game w)) ≡ₚ cards (Deck_new cardTypes)).
  { subst w. rewrite run_deck_Permutation, play_deck.
    apply shuffle_loop_Permutation. }
  split; [exact Hperm|]. split.
  - rewrite Hperm. apply Deck_new_length.
  - intros Hnd ty Hty. unfold count_type. rewrite Hperm.
    fold (count_type ty (cards (Deck_new cardTypes))).
    by rewrite Deck_new_count, occurs_once.
Qed.

Lemma deck_composition_kept_witness :
  let w := run [CardClick 0; RestartClick draw0; CardClick 2]
               (play ["anchor"; "bolt"] draw0 blank_page 0) in
  NoDup ["anchor"; "bolt"] ∧ length (cards (deck (game w))) = 4 ∧
  count_type "bolt" (cards (deck (game w))) = 2.
Proof.
  intros w.
  assert (Hnd : NoDup ["anchor"; "bolt"]).
  { apply (bool_decide_unpack (NoDup ["anchor"; "bolt"])). vm_compute. exact I. }
  destruct (deck_composition_kept ["anchor"; "bolt"] draw0 blank_page 0
              [CardClick 0; RestartClick draw0; CardClick 2])
    as (_ & Hlen & Htwo).
  split; [exact Hnd|]. split; [exact Hlen|].
  apply (Htwo Hnd). right. by left.
Defined.









(** ** The score on the page *)

Lemma score_view_set_elems (f : list Elem → list Elem) (w : World) :
  score_view (set_page (set_elems f (page w)) w) = score_view w.
Proof. by destruct w as [g [es dc ss mt ttx md] q nid clock fin]. Qed.

Lemma score_view_each_card (f : Elem → Elem) (w : World) :
  score_view (set_page (each_card f (page w)) w) = score_view w.
Proof. apply score_view_set_elems. Qed.

Lemma score_view_set_openCards (cs : list Card) (w : World) :
  score_view (set_openCards cs w) = score_view w.
Proof. done. Qed.

Lemma score_view_set_matches (m : nat) (w : World) :
  score_view (set_matches m w) = score_view w.
Proof. done. Qed.

Lemma score_view_start (w : World) :
  score_view (Scoreboard_start w) = score_view w.
Proof. unfold score_view. frame. Qed.

Lemma score_view_openCard (target : nat) (cardElem : Elem) (w : World) :
  score_view (Game_openCard target cardElem w) = score_view w.
Proof. unfold score_view. frame. Qed.

Lemma score_view_hideUnmatched (w : World) :
  score_view (Game_hideUnmatched w) = score_view w.
Proof.
  unfold score_view, sb.
  by destruct (Game_hideUnmatched_game w) as (-> & -> & _).
Qed.

Lemma score_view_lock_open (i : nat) (w : World) :
  score_view (lock_open i w) = score_view w.
Proof.
  unfold lock_open, Card_lock.
  destruct (openCards (game w) !! i) as [c|]; [|done].
  destruct (elem c); [apply score_view_set_elems | done].
Qed.

Lemma score_view_finish (w : World) :
  score_view (Game_finish w) = score_view w.
Proof. unfold score_view. frame. Qed.

Lemma score_view_close (w : World) :
  score_view (Scoreboard_closeFinalScores w) = score_view w.
Proof. unfold score_view. frame. Qed.

Lemma score_view_lockMatched (w : World) :
  score_view (Game_lockMatched w) = score_view w.
Proof.
  unfold Game_lockMatched. cbv zeta.
  set (w1 := set_page _ (set_matches (matches (game w) + 1) w)).
  set (w5 := set_page _ (lock_open 1 (lock_open 0 w1))).
  assert (H5 : score_view w5 = score_view w).
  { subst w5 w1.
    by rewrite score_view_each_card, !score_view_lock_open,
      score_view_each_card, score_view_set_matches. }
  destruct (_ <=? _); [by rewrite score_view_finish | done].
Qed.

Lemma score_view_display (rnd : nat → nat) (w : World) :
  score_view (display_deck rnd w) = score_view w.
Proof.
  unfold score_view, sb. rewrite display_deck_page.
  by destruct (display_deck_game rnd w) as (_ & _ & _ & -> & _).
Qed.

Lemma score_view_show_hide (t : Timer) (w : World) :
  (∀ startTime, action t ≠ Tick startTime) →
  score_view (run_timer t w) = score_view w.
Proof.
  intros Hnt. unfold run_timer, Card_show_callback, Card_hide_callback.
  destruct (action t) as [c|c|startTime].
  - destruct (elem c); [apply score_view_set_elems | by destruct w].
  - destruct (elem c); [apply score_view_set_elems | by destruct w].
  - by destruct (Hnt startTime).
Qed.

Lemma score_view_tick (t : Timer) (startTime : nat) (w : World) :
  action t = Tick startTime →
  score_view (run_timer t w)
  = score_view (tick_score ((now w - startTime) / 1000) w).
Proof. intros Ht. unfold run_timer. by rewrite Ht. Qed.

(** An invariant that looks at the score only holds in every state that
    the game reaches, if [incrementMoves] and the callback of the interval
    timer keep it and [reset] brings it about. *)
Section ScoreInvariant.

Variable P : World → Prop.
Hypothesis P_view : ∀ w w', score_view w' = score_view w → P w → P w'.
Hypothesis P_increment : ∀ w, P w → P (Scoreboard_incrementMoves w).
Hypothesis P_reset : ∀ w, P (Scoreboard_reset w).
Hypothesis P_tick : ∀ seconds w, P w → P (tick_score seconds w).

Lemma handleCardClick_score (target : nat) (w : World) :
  P w → P (Game_handleCardClick target w).
Proof.
  intros Hw. unfold Game_handleCardClick.
  destruct (elems (page w) !! target) as [cardElem|]; [|done].
  destruct (hasOpen cardElem); [done|]. cbv zeta.
  set (opened := Game_openCard target cardElem (Scoreboard_start w)).
  assert (Hopened : P opened).
  { apply (P_view w); [|done]. subst opened.
    by rewrite score_view_openCard, score_view_start. }
  destruct (1 <? _); [|done].
  apply P_increment. apply (P_view opened); [|done].
  rewrite score_view_set_openCards.
  destruct (Game_isMatched opened);
    [apply score_view_lockMatched | apply score_view_hideUnmatched].
Qed.

Lemma handleRestart_score (rnd : nat → nat) (w : World) :
  P (Game_handleRestart rnd w).
Proof.
  unfold Game_handleRestart. cbv zeta.
  set (w2 := Scoreboard_reset (set_page (each_card off_click (page w)) w)).
  apply (P_view w2); [|apply P_reset].
  by rewrite score_view_each_card, score_view_display,
    score_view_set_openCards, score_view_set_matches.
Qed.

Lemma step_score (w : World) (ev : Event) : P w → P (step w ev).
Proof.
  intros Hw. destruct ev as [p|rnd|rnd| | |ms|]; cbn [step].
  - unfold click_card.
    destruct (deckChildren (page w) !! p) as [target|]; [|done].
    destruct (elems (page w) !! target) as [el|]; [|done].
    induction (clickHandlers el) as [|n IH]; [done|].
    rewrite Nat.iter_succ. by apply handleCardClick_score.
  - apply handleRestart_score.
  - apply handleRestart_score.
  - apply (P_view w); [apply score_view_close | done].
  - apply (P_view w); [apply score_view_close | done].
  - by apply (P_view w).
  - destruct (timers w) as [|t q]; [done|].
    destruct (due t <=? now w); [|done].
    destruct (action t) as [c|c|startTime] eqn:Ht.
    + apply (P_view w); [|done].
      rewrite score_view_show_hide by (intros s; congruence). done.
    + apply (P_view w); [|done].
      rewrite score_view_show_hide by (intros s; congruence). done.
    + apply (P_view (tick_score ((now w - startTime) / 1000) w)).
      * by rewrite (score_view_tick t startTime).
      * by apply P_tick.
Qed.

Lemma run_score (evs : list Event) (w : World) : P w → P (run evs w).
Proof.
  unfold run. revert w. induction evs as [|ev evs IH]; intros w Hw; [done|].
  cbn [foldl]. by apply IH, step_score.
Qed.

End ScoreInvariant.

Lemma stars_rated_view (w w' : World) :
  score_view w' = score_view w → stars_rated w → stars_rated w'.
Proof.
  unfold stars_rated, score_view. intros [= Hm Hs _ _ _ _] Hr. congruence.
Qed.

Lemma stars_rated_increment (w : World) :
  stars_rated (Scoreboard_incrementMoves w).
Proof.
  unfold stars_rated, Scoreboard_incrementMoves. cbv zeta.
  by rewrite Scoreboard_updateScore_stars, Scoreboard_updateScore_moves.
Qed.

Lemma stars_rated_reset (w : World) : stars_rated (Scoreboard_reset w).
Proof.
  unfold stars_rated, sb.
  by destruct (Scoreboard_reset_game w) as (_ & _ & _ & -> & _).
Qed.

Lemma stars_rated_run (cardTypes : list string) (rnd : nat → nat) (p0 : Page)
    (t0 : nat) (evs : list Event) :
  stars_rated (run evs (play cardTypes rnd p0 t0)).
Proof.
  apply (run_score stars_rated).
  - apply stars_rated_view.
  - intros w _. apply stars_rated_increment.
  - apply stars_rated_reset.
  - by intros seconds w.
  - reflexivity.
Qed.

Lemma score_shown_view (w w' : World) :
  score_view w' = score_view w →
  stars_rated w ∧ score_shown w → stars_rated w' ∧ score_shown w'.
Proof.
  unfold stars_rated, score_shown, score_view.
  intros [= Hm Hs Ht Hss Hmt Htt] (Hr & H1 & H2 & H3).
  repeat split; congruence.
Qed.

Lemma score_shown_increment (w : World) :
  stars_rated w ∧ score_shown w →
  stars_rated (Scoreboard_incrementMoves w) ∧
  score_shown (Scoreboard_incrementMoves w).
Proof.
  intros [Hr Hs]. split; [apply stars_rated_increment|].
  revert Hr Hs. unfold stars_rated, score_shown. destruct_world.
  destruct ti; eval_methods; intros Hr (Hss & Hmt & Htt);
    case_bool_decide; eval_methods; repeat split; congruence.
Qed.

Lemma score_shown_reset (w : World) :
  stars_rated (Scoreboard_reset w) ∧ score_shown (Scoreboard_reset w).
Proof.
  split; [apply stars_rated_reset|]. unfold score_shown, sb.
  by destruct (Scoreboard_reset_game w)
    as (_ & _ & _ & -> & _ & _ & -> & -> & -> & _).
Qed.

Lemma score_shown_tick (seconds : nat) (w : World) :
  stars_rated w ∧ score_shown w →
  stars_rated (tick_score seconds w) ∧ score_shown (tick_score seconds w).
Proof.
  unfold stars_rated, score_shown, tick_score. destruct_world.
  by intros (? & ? & ? & ?).
Qed.

(** X4: when the page starts with three stars, no move and no second, the
    page shows in every state that the game reaches the stars, the moves
    and the seconds that the scoreboard holds, and the stars are those of
    the move count: the rating never lags behind the moves. *)
Theorem page_shows_score (cardTypes : list string) (rnd : nat → nat)
    (p0 : Page) (t0 : nat) (evs : list Event) :
  starsShown p0 = 3 → movesText p0 = 0 → timeTakenText p0 = 0 →
  let w := run evs (play cardTypes rnd p0 t0) in
  starsShown (page w) = stars (sb w) ∧
  movesText (page w) = moves (sb w) ∧
  timeTakenText (page w) = timeTaken (sb w) ∧
  stars (sb w) = newVal (moves (sb w)).
Proof.
  intros Hss Hmt Htt w.
  assert (Hw : stars_rated w ∧ score_shown w).
  { apply (run_score (λ w, stars_rated w ∧ score_shown w)).
    - apply score_shown_view.
    - apply score_shown_increment.
    - apply score_shown_reset.
    - apply score_shown_tick.
    - split; [reflexivity|]. unfold score_shown.
      replace (page (play cardTypes rnd p0 t0))
        with (each_card on_click (page (display_deck rnd
                {| game := Game_new (Deck_new cardTypes); page := p0;
                   timers := []; nextTimerId := 1; now := t0; finished := 0 |})))
        by reflexivity.
      rewrite display_deck_page. by cbn. }
  destruct Hw as (Hr & Hs1 & Hs2 & Hs3). done.
Qed.

Lemma page_shows_score_witness :
  let w := run [CardClick 0; CardClick 1; Elapse 1000; TimerFires; TimerFires]
               (play ["anchor"; "bolt"] draw0 blank_page 0) in
  starsShown (page w) = stars (sb w) ∧
  movesText (page w) = moves (sb w) ∧
  timeTakenText (page w) = timeTaken (sb w) ∧
  stars (sb w) = newVal (moves (sb w)).
Proof.
  exact (page_shows_score ["anchor"; "bolt"] draw0 blank_page 0
           [CardClick 0; CardClick 1; Elapse 1000; TimerFires; TimerFires]
           eq_refl eq_refl eq_refl).
Defined.

(** ** Moves, matches and stars while a game is played *)

(** One call of [handleCardClick] either leaves the moves and the matches
    as they are, or adds one move and at most one match. *)
Lemma Game_handleCardClick_counts (target : nat) (w : World) :
  let w' := Game_handleCardClick target w in
  (moves (sb w') = moves (sb w) ∧ matches (game w') = matches (game w)) ∨
  (moves (sb w') = moves (sb w) + 1 ∧
   (matches (game w') = matches (game w) ∨
    matches (game w') = matches (game w) + 1)).
Proof.
  intros w'. subst w'. unfold Game_handleCardClick.
  destruct (elems (page w) !! target) as [cardElem|]; [|by left].
  destruct (hasOpen cardElem); [by left|]. cbv zeta.
  set (opened := Game_openCard target cardElem (Scoreboard_start w)).
  assert (Hopened : matches (game opened) = matches (game w)
                    ∧ moves (sb opened) = moves (sb w)).
  { subst opened.
    destruct (Game_openCard_game target cardElem (Scoreboard_start w))
      as (_ & -> & _ & -> & _).
    by destruct (Scoreboard_start_game w) as (_ & -> & _ & -> & _). }
  destruct Hopened as [Hm Hmv].
  destruct (1 <? _); [|by left]. right.
  destruct (Scoreboard_incrementMoves_game
              (set_openCards []
                 (if Game_isMatched opened then Game_lockMatched opened
                  else Game_hideUnmatched opened)))
    as (_ & -> & _ & -> & _).
  unfold sb in *. cbn [set_openCards set_game game matches scoreboard].
  destruct (Game_isMatched opened).
  - destruct (Game_lockMatched_game opened) as (_ & -> & _ & Hmv' & _).
    unfold sb in Hmv'. rewrite Hmv', Hm, Hmv. split; [done | by right].
  - destruct (Game_hideUnmatched_game opened) as (-> & _).
    rewrite Hm, Hmv. split; [done | by left].
Qed.

Lemma iter_handleCardClick_counts (n target : nat) (w : World) :
  matches (game w) ≤ moves (sb w) →
  let w' := Nat.iter n (Game_handleCardClick target) w in
  matches (game w') ≤ moves (sb w') ∧ moves (sb w) ≤ moves (sb w').
Proof.
  intros Hw. induction n as [|n [IHle IHmv]]; [by cbn|].
  cbv zeta. rewrite Nat.iter_succ.
  destruct (Game_handleCardClick_counts target
              (Nat.iter n (Game_handleCardClick target) w))
    as [[-> ->] | [-> [-> | ->]]]; lia.
Qed.

Lemma step_counts (w : World) (ev : Event) :
  matches (game w) ≤ moves (sb w) →
  matches (game (step w ev)) ≤ moves (sb (step w ev)) ∧
  (same_game ev → moves (sb w) ≤ moves (sb (step w ev))).
Proof.
  intros Hw. destruct ev as [p|rnd|rnd| | |ms|]; cbn [step same_game].
  - unfold click_card.
    destruct (deckChildren (page w) !! p) as [target|]; [|done].
    destruct (elems (page w) !! target) as [el|]; [|done].
    destruct (iter_handleCardClick_counts (clickHandlers el) target w Hw).
    done.
  - unfold sb.
    destruct (Game_handleRestart_game rnd w) as (_ & -> & _ & -> & _).
    cbn. split; [lia | done].
  - unfold sb.
    destruct (Game_handlePlayAgain_game rnd w) as (_ & -> & _ & -> & _).
    cbn. split; [lia | done].
  - done.
  - done.
  - done.
  - destruct (timers w) as [|t q]; [done|].
    destruct (due t <=? now w); [|done].
    destruct (run_timer_game t (set_timers q w)) as (_ & -> & _ & -> & _).
    done.
Qed.

Lemma run_app (evs evs' : list Event) (w : World) :
  run (evs ++ evs') w = run evs' (run evs w).
Proof. unfold run. by rewrite foldl_app. Qed.

Lemma run_counts (evs : list Event) (w : World) :
  matches (game w) ≤ moves (sb w) →
  matches (game (run evs w)) ≤ moves (sb (run evs w)) ∧
  (Forall same_game evs → moves (sb w) ≤ moves (sb (run evs w))).
Proof.
  unfold run. revert w. induction evs as [|ev evs IH]; intros w Hw; [done|].
  cbn [foldl]. destruct (step_counts w ev Hw) as [Hle Hmv].
  destruct (IH (step w ev) Hle) as [Hle' Hmv'].
  split; [done|]. intros [Hev Hevs]%Forall_cons.
  specialize (Hmv Hev). specialize (Hmv' Hevs). lia.
Qed.

Lemma matches_le_moves_reached (cardTypes : list string) (rnd : nat → nat)
    (p0 : Page) (t0 : nat) (evs : list Event) :
  matches (game (run evs (play cardTypes rnd p0 t0)))
  ≤ moves (sb (run evs (play cardTypes rnd p0 t0))).
Proof.
  apply run_counts.
  replace (matches (game (play cardTypes rnd p0 t0))) with 0 by reflexivity.
  lia.
Qed.

(** X5: in every state that the game reaches, the matches are at most the
    moves: every match was counted as a move. *)
Theorem matches_at_most_moves (cardTypes : list string) (rnd : nat → nat)
    (p0 : Page) (t0 : nat) (evs : list Event) :
  matches (game (run evs (play cardTypes rnd p0 t0)))
  ≤ moves (sb (run evs (play cardTypes rnd p0 t0))).
Proof. apply matches_le_moves_reached. Qed.

Lemma newVal_antitone (m m' : nat) : m ≤ m' → newVal m' ≤ newVal m.
Proof.
  intros Hle. unfold newVal.
  destruct (Nat.ltb_spec m 15), (Nat.ltb_spec m' 15),
    (Nat.ltb_spec m 25), (Nat.ltb_spec m' 25); lia.
Qed.

Lemma newVal_bounds (m : nat) : 1 ≤ newVal m ≤ 3.
Proof.
  unfold newVal. destruct (Nat.ltb_spec m 15), (Nat.ltb_spec m 25); lia.
Qed.

(** X6: while a game is played without a restart, the moves never go down
    and the stars never go up, and there are always between one and three
    stars. *)
Theorem stars_never_rise (cardTypes : list string) (rnd : nat → nat)
    (p0 : Page) (t0 : nat) (evs evs' : list Event) :
  Forall same_game evs' →
  let w := run evs (play cardTypes rnd p0 t0) in
  let w' := run evs' w in
  moves (sb w) ≤ moves (sb w') ∧
  stars (sb w') ≤ stars (sb w) ∧
  1 ≤ stars (sb w') ≤ 3.
Proof.
  intros Hevs w w'.
  assert (Hmv : moves (sb w) ≤ moves (sb w')).
  { apply run_counts; [|done]. apply matches_le_moves_reached. }
  assert (Hr : stars_rated w) by apply stars_rated_run.
  assert (Hr' : stars_rated w').
  { subst w' w. rewrite <- run_app. apply stars_rated_run. }
  unfold stars_rated in Hr, Hr'. rewrite Hr, Hr'.
  split; [done|]. split; [by apply newVal_antitone | apply newVal_bounds].
Qed.

Lemma stars_never_rise_witness :
  let w := run [CardClick 0] (play ["anchor"; "bolt"] draw0 blank_page 0) in
  let w' := run [CardClick 1; Elapse 900; TimerFires; NoClick] w in
  moves (sb w) ≤ moves (sb w') ∧ stars (sb w') ≤ stars (sb w) ∧
  1 ≤ stars (sb w') ≤ 3.
Proof.
  assert (Hevs : Forall same_game [CardClick 1; Elapse 900; TimerFires; NoClick]).
  { repeat constructor. }
  exact (stars_never_rise ["anchor"; "bolt"] draw0 blank_page 0
           [CardClick 0] _ Hevs).
Defined.

(** ** The clock of the scoreboard *)

Lemma filter_enqueue_other (P : Timer → Prop) `{∀ t, Decision (P t)}
    (t : Timer) (q : list Timer) :
  ¬ P t → filter P (enqueue t q) = filter P q.
Proof.
  intros Ht. induction q as [|x q IH]; cbn [enqueue].
  - by rewrite filter_cons_False.
  - destruct (due t <? due x).
    + by rewrite (filter_cons_False P t).
    + destruct (decide (P x)).
      * rewrite !(filter_cons_True P x) by done. by rewrite IH.
      * rewrite !(filter_cons_False P x) by done. exact IH.
Qed.

Lemma filter_enqueue_first (P : Timer → Prop) `{∀ t, Decision (P t)}
    (t : Timer) (q : list Timer) :
  P t → filter P q = [] → filter P (enqueue t q) = [t].
Proof.
  intros Ht. induction q as [|x q IH]; cbn [enqueue]; intros Hq.
  - by rewrite filter_cons_True.
  - destruct (decide (P x)) as [Hx|Hx].
    { by rewrite (filter_cons_True P x) in Hq. }
    rewrite (filter_cons_False P x) in Hq by done.
    destruct (due t <? due x).
    + rewrite (filter_cons_True P t), (filter_cons_False P x) by done.
      by rewrite Hq.
    + rewrite (filter_cons_False P x) by done. by apply IH.
Qed.

Lemma filter_clear_none (id : nat) (q : list Timer) :
  filter (λ t, is_tick t = true) q = [] →
  filter (λ t, is_tick t = true) (filter (λ t, tid t ≠ id) q) = [].
Proof.
  induction q as [|x q IH]; [done|]. intros Hq.
  destruct (decide (is_tick x = true)) as [Hx|Hx].
  { by rewrite filter_cons_True in Hq. }
  rewrite filter_cons_False in Hq by done.
  destruct (decide (tid x ≠ id)).
  - rewrite (filter_cons_True (λ t, tid t ≠ id)) by done.
    rewrite filter_cons_False by done. by apply IH.
  - rewrite (filter_cons_False (λ t, tid t ≠ id)) by done. by apply IH.
Qed.

Lemma filter_clear_one (id : nat) (q : list Timer) (t : Timer) :
  filter (λ t, is_tick t = true) q = [t] → tid t = id →
  filter (λ t, is_tick t = true) (filter (λ t, tid t ≠ id) q) = [].
Proof.
  induction q as [|x q IH]; [done|]. intros Hq Hid.
  destruct (decide (is_tick x = true)) as [Hx|Hx].
  - rewrite filter_cons_True in Hq by done. injection Hq as -> Hnil.
    rewrite (filter_cons_False (λ t0, tid t0 ≠ id) t)
      by (intros Hne; apply Hne, Hid).
    by apply filter_clear_none.
  - rewrite filter_cons_False in Hq by done.
    destruct (decide (tid x ≠ id)).
    + rewrite (filter_cons_True (λ t, tid t ≠ id)) by done.
      rewrite filter_cons_False by done. by apply IH.
    + rewrite (filter_cons_False (λ t, tid t ≠ id)) by done. by apply IH.
Qed.

Lemma one_clock_view (w w' : World) :
  clock_view w' = clock_view w → one_clock w → one_clock w'.
Proof.
  unfold one_clock, clock_timers, clock_view. intros [= Hq Hid].
  by rewrite Hq, Hid.
Qed.

(** A timer of [Card.show] or [Card.hide] does not touch the clock. *)
Lemma one_clock_card_timer (a : TimerAction) (delay : nat) (w : World) :
  (∀ s, a ≠ Tick s) → one_clock w → one_clock (add_timer a delay w).
Proof.
  intros Ha. unfold one_clock, clock_timers, add_timer, sb.
  cbn [timers game].
  rewrite filter_enqueue_other; [done|].
  unfold is_tick. cbn [action]. destruct a; [done | done |].
  by destruct (Ha startTime).
Qed.

Lemma one_clock_start (w : World) : one_clock w → one_clock (Scoreboard_start w).
Proof.
  unfold Scoreboard_start, one_clock at 1.
  destruct (timerId (sb w)) as [id|] eqn:Hid.
  - intros Hw. unfold one_clock. by rewrite Hid.
  - intros Hw. unfold one_clock, clock_timers, add_timer, set_scoreboard, sb.
    cbn [set_game game scoreboard timerId timers].
    exists (mkTimer (nextTimerId w) (now w + 1000) (Tick (now w))).
    split; [|reflexivity].
    by apply filter_enqueue_first.
Qed.

(** [clearInterval] of the remembered timer followed by
    [this.timerId = null] leaves no interval timer. *)
Lemma one_clock_stopped (w w' : World) :
  timers w' = timers (clear_timerId w) → timerId (sb w') = None →
  one_clock w → clock_timers w' = [] ∧ one_clock w'.
Proof.
  intros Hq Hid Hw.
  assert (Hnone : clock_timers w' = []).
  { unfold clock_timers. rewrite Hq. revert Hw.
    unfold one_clock, clock_timers, clear_timerId, clearInterval.
    destruct (timerId (sb w)) as [id|].
    - intros (t & Ht & Htid). cbn [set_timers timers].
      by apply (filter_clear_one id _ t).
    - done. }
  split; [done|]. unfold one_clock. by rewrite Hid.
Qed.

Lemma Scoreboard_showFinalScores_clock (w : World) :
  timers (Scoreboard_showFinalScores w) = timers (clear_timerId w) ∧
  timerId (sb (Scoreboard_showFinalScores w)) = None.
Proof. unfold Scoreboard_showFinalScores. done. Qed.

Lemma Scoreboard_reset_clock (w : World) :
  timers (Scoreboard_reset w) = timers (clear_timerId w) ∧
  timerId (sb (Scoreboard_reset w)) = None.
Proof. frame. Qed.

Lemma clock_view_incrementMoves (w : World) :
  clock_view (Scoreboard_incrementMoves w) = clock_view w.
Proof. unfold clock_view. frame. Qed.

Lemma clock_view_lock_open (i : nat) (w : World) :
  clock_view (lock_open i w) = clock_view w.
Proof.
  unfold lock_open, Card_lock.
  destruct (openCards (game w) !! i) as [c|]; [|done].
  by destruct (elem c).
Qed.

Lemma clock_view_display (rnd : nat → nat) (w : World) :
  clock_view (display_deck rnd w) = clock_view w.
Proof.
  unfold clock_view, sb.
  by destruct (display_deck_game rnd w) as (_ & _ & _ & -> & -> & _).
Qed.

Lemma one_clock_finish (w : World) :
  one_clock w → clock_timers (Game_finish w) = [] ∧ one_clock (Game_finish w).
Proof.
  intros Hw.
  destruct (Scoreboard_showFinalScores_clock w) as [Hq Hid].
  by apply (one_clock_stopped w).
Qed.

Lemma one_clock_lockMatched (w : World) :
  one_clock w → one_clock (Game_lockMatched w).
Proof.
  intros Hw. unfold Game_lockMatched. cbv zeta.
  set (w1 := set_page _ (set_matches (matches (game w) + 1) w)).
  set (w5 := set_page _ (lock_open 1 (lock_open 0 w1))).
  assert (H5 : one_clock w5).
  { apply (one_clock_view w); [|done]. subst w5 w1.
    change (clock_view (set_page ?p ?v)) with (clock_view v).
    by rewrite !clock_view_lock_open. }
  destruct (_ <=? _); [by apply one_clock_finish | done].
Qed.

Lemma one_clock_hideUnmatched (w : World) :
  one_clock w → one_clock (Game_hideUnmatched w).
Proof.
  unfold Game_hideUnmatched. destruct (1 <? _); [|done].
  generalize (openCards (game w)). intros cs. revert w.
  induction cs as [|c cs IH]; intros w Hw; [done|].
  cbn [foldl]. apply IH. by apply one_clock_card_timer.
Qed.

Lemma one_clock_handleCardClick (target : nat) (w : World) :
  one_clock w → one_clock (Game_handleCardClick target w).
Proof.
  intros Hw. unfold Game_handleCardClick.
  destruct (elems (page w) !! target) as [cardElem|]; [|done].
  destruct (hasOpen cardElem); [done|]. cbv zeta.
  set (opened := Game_openCard target cardElem (Scoreboard_start w)).
  assert (Hopened : one_clock opened).
  { subst opened. unfold Game_openCard, Card_show. cbv zeta.
    apply (one_clock_view (add_timer (ShowCard (Card_fromElem target cardElem))
                                     50 (Scoreboard_start w))); [done|].
    apply one_clock_card_timer; [done|]. by apply one_clock_start. }
  destruct (1 <? _); [|done].
  apply (one_clock_view
           (if Game_isMatched opened then Game_lockMatched opened
            else Game_hideUnmatched opened)).
  { by rewrite clock_view_incrementMoves. }
  destruct (Game_isMatched opened);
    [by apply one_clock_lockMatched | by apply one_clock_hideUnmatched].
Qed.

Lemma Game_handleRestart_timers (rnd : nat → nat) (w : World) :
  timers (Game_handleRestart rnd w)
  = timers (Scoreboard_reset (set_page (each_card off_click (page w)) w)).
Proof.
  unfold Game_handleRestart. cbv zeta.
  generalize (Scoreboard_reset (set_page (each_card off_click (page w)) w)).
  intros w2. cbn [set_page timers].
  by destruct (display_deck_game rnd (set_openCards [] (set_matches 0 w2)))
    as (_ & _ & _ & _ & -> & _).
Qed.

Lemma one_clock_handleRestart (rnd : nat → nat) (w : World) :
  one_clock w →
  clock_timers (Game_handleRestart rnd w) = [] ∧
  one_clock (Game_handleRestart rnd w).
Proof.
  intros Hw.
  set (w1 := set_page (each_card off_click (page w)) w).
  destruct (Scoreboard_reset_clock w1) as [Hq Hid].
  apply (one_clock_stopped w1).
  - by rewrite Game_handleRestart_timers.
  - unfold sb. by destruct (Game_handleRestart_game rnd w) as (_ & _ & _ & -> & _).
  - by apply (one_clock_view w).
Qed.

Lemma one_clock_run_timer (t : Timer) (q : list Timer) (w : World) :
  timers w = t :: q → one_clock w → one_clock (run_timer t (set_timers q w)).
Proof.
  intros Hq. unfold one_clock, clock_timers. rewrite Hq.
  unfold run_timer.
  destruct (action t) as [c|c|startTime] eqn:Ht.
  - rewrite filter_cons_False by (unfold is_tick; by rewrite Ht). done.
  - rewrite filter_cons_False by (unfold is_tick; by rewrite Ht). done.
  - rewrite filter_cons_True by (unfold is_tick; by rewrite Ht).
    unfold Scoreboard_updateTimeTaken, sb.
    cbn [set_timers set_scoreboard set_game set_page game scoreboard timerId timers].
    destruct (timerId (scoreboard (game w))) as [id|]; [|done].
    intros (t' & [= <- Hnil] & Hid).
    exists (mkTimer (tid t) (due t + 1000) (Tick startTime)).
    split; [|exact Hid].
    by apply filter_enqueue_first.
Qed.

Lemma step_one_clock (w : World) (ev : Event) :
  one_clock w → one_clock (step w ev).
Proof.
  intros Hw. destruct ev as [p|rnd|rnd| | |ms|]; cbn [step].
  - unfold click_card.
    destruct (deckChildren (page w) !! p) as [target|]; [|done].
    destruct (elems (page w) !! target) as [el|]; [|done].
    induction (clickHandlers el) as [|n IH]; [done|].
    rewrite Nat.iter_succ. by apply one_clock_handleCardClick.
  - by apply one_clock_handleRestart.
  - unfold Game_handlePlayAgain.
    by apply (one_clock_handleRestart rnd (Scoreboard_closeFinalScores w)).
  - done.
  - done.
  - done.
  - destruct (timers w) as [|t q] eqn:Hq; [done|].
    destruct (due t <=? now w); [|done].
    by apply one_clock_run_timer.
Qed.

Lemma run_one_clock (evs : list Event) (w : World) :
  one_clock w → one_clock (run evs w).
Proof.
  unfold run. revert w. induction evs as [|ev evs IH]; intros w Hw; [done|].
  cbn [foldl]. by apply IH, step_one_clock.
Qed.

Lemma play_one_clock (cardTypes : list string) (rnd : nat → nat) (p0 : Page)
    (t0 : nat) :
  one_clock (play cardTypes rnd p0 t0).
Proof.
  unfold one_clock, clock_timers.
  replace (timerId (sb (play cardTypes rnd p0 t0))) with (@None nat)
    by reflexivity.
  by replace (timers (play cardTypes rnd p0 t0)) with (@nil Timer)
    by reflexivity.
Qed.

(** X7: in every state that the game reaches, the only interval timer that
    can be pending is the one the scoreboard remembers, so at most one
    clock runs; [finish] and a restart leave none pending, so that the
    seconds stand still until the next reveal. *)
Theorem at_most_one_clock (cardTypes : list string) (rnd : nat → nat)
    (p0 : Page) (t0 : nat) (evs : list Event) :
  let w := run evs (play cardTypes rnd p0 t0) in
  match timerId (sb w) with
  | Some id => ∃ t, clock_timers w = [t] ∧ tid t = id
  | None => clock_timers w = []
  end ∧
  clock_timers (Game_finish w) = [] ∧
  ∀ rnd', clock_timers (step w (RestartClick rnd')) = [].
Proof.
  intros w.
  assert (Hw : one_clock w) by apply run_one_clock, play_one_clock.
  split; [exact Hw|]. split.
  - destruct (one_clock_finish w Hw) as [Hnone _]. exact Hnone.
  - intros rnd'. cbn [step].
    destruct (one_clock_handleRestart rnd' w Hw) as [Hnone _]. exact Hnone.
Qed.

(** X8: [Scoreboard.start] starts the clock only when none runs: it then
    remembers a timer whose first tick is due one second later; called
    while the clock runs it changes nothing, so calling it twice is
    calling it once. *)
Theorem Scoreboard_start_idempotent (w : World) :
  Scoreboard_start (Scoreboard_start w) = Scoreboard_start w ∧
  (is_Some (timerId (sb w)) → Scoreboard_start w = w) ∧
  (timerId (sb w) = None →
   timerId (sb (Scoreboard_start w)) = Some (nextTimerId w) ∧
   mkTimer (nextTimerId w) (now w + 1000) (Tick (now w))
     ∈ timers (Scoreboard_start w)).
Proof.
  split; [|split].
  - unfold Scoreboard_start at 2 3.
    destruct (timerId (sb w)) as [id|] eqn:Hid.
    + unfold Scoreboard_start. by rewrite Hid.
    + reflexivity.
  - intros [id Hid]. unfold Scoreboard_start. by rewrite Hid.
  - intros Hid. unfold Scoreboard_start. rewrite Hid. split; [done|].
    cbn [set_scoreboard set_game timers add_timer].
    apply elem_of_enqueue. by left.
Qed.

Lemma Scoreboard_start_idempotent_witness :
  Scoreboard_start one_pending = one_pending ∧
  timerId (sb (Scoreboard_start two_pairs)) = Some (nextTimerId two_pairs).
Proof.
  destruct (Scoreboard_start_idempotent one_pending) as (_ & Hrun & _).
  destruct (Scoreboard_start_idempotent two_pairs) as (_ & _ & Hnew).
  split.
  - apply Hrun. by exists 1.
  - by apply Hnew.
Defined.

(** ** Clicks on single cards *)

Lemma click_on_matched_card_ignored_witness :
  let w := run [CardClick 0; CardClick 3]
               (play ["anchor"; "bolt"] draw0 blank_page 0) in
  step w (CardClick 0) = w.
Proof.
  apply (click_on_matched_card_ignored ["anchor"; "bolt"] draw0 blank_page 0
           [CardClick 0; CardClick 3] 0 0
           (mkElem "fa fa-anchor" false false true 0));
    vm_compute; reflexivity.
Defined.

Lemma click_on_open_card_ignored_witness :
  let w := run [Elapse 50; TimerFires] one_pending in
  step w (CardClick 0) = w.
Proof.
  apply (click_on_open_card_ignored (run [Elapse 50; TimerFires] one_pending)
           0 0 (mkElem "fa fa-anchor" true true false 1));
    vm_compute; reflexivity.
Defined.

Lemma Scoreboard_start_running (w : World) :
  is_Some (timerId (sb (Scoreboard_start w))).
Proof.
  unfold Scoreboard_start. destruct (timerId (sb w)) as [id|] eqn:Hid.
  - rewrite Hid. by exists id.
  - by eexists.
Qed.

Lemma Card_show_callback_shows (c : Card) (e : nat) (pg : Page) :
  elem c = Some e → is_Some (elems pg !! e) →
  ∃ el, elems (Card_show_callback c pg) !! e = Some el
        ∧ hasOpen el = true ∧ hasShow el = true.
Proof.
  intros He [el Hel]. unfold Card_show_callback. rewrite He.
  cbn [set_elems elems].
  rewrite list_lookup_alter_eq, Hel. eexists; split; [done|]. done.
Qed.

(** X11: in every state that the game reaches, a click on a card that is
    neither open nor matched, while no card is pending, makes the card the
    pending card and starts the clock if it does not run; it changes no
    card of the page, no move and no match, and starts a timer, due 50 ms
    later, whose callback gives the card the classes [open] and [show]. *)
Theorem first_card_revealed (cardTypes : list string) (rnd : nat → nat)
    (p0 : Page) (t0 : nat) (evs : list Event) (p target : nat)
    (cardElem : Elem) :
  let w := run evs (play cardTypes rnd p0 t0) in
  deckChildren (page w) !! p = Some target →
  elems (page w) !! target = Some cardElem →
  hasOpen cardElem = false →
  hasMatch cardElem = false →
  openCards (game w) = [] →
  let w' := step w (CardClick p) in
  let c := Card_fromElem target cardElem in
  openCards (game w') = [c] ∧
  is_Some (timerId (sb w')) ∧
  moves (sb w') = moves (sb w) ∧
  matches (game w') = matches (game w) ∧
  finished w' = finished w ∧
  page w' = page w ∧
  ∃ t, t ∈ timers w' ∧ action t = ShowCard c ∧ due t = now w + 50 ∧
       ∀ v : World, is_Some (elems (page v) !! target) →
         ∃ el, elems (page (run_timer t v)) !! target = Some el
               ∧ hasOpen el = true ∧ hasShow el = true.
Proof.
  intros w Hp Hel Hopen Hmatch Hoc w' c.
  pose proof (unmatched_card_has_handler cardTypes rnd p0 t0 evs p target
                cardElem Hp Hel Hmatch) as Hh.
  subst w'. rewrite (click_card_one_handler p target cardElem w Hp Hel Hh).
  rewrite (Game_handleCardClick_first target cardElem w Hel Hopen Hoc).
  destruct (Game_openCard_game target cardElem (Scoreboard_start w))
    as (_ & -> & -> & -> & -> & _ & ->).
  destruct (Scoreboard_start_game w) as (_ & -> & -> & -> & -> & Hnow & ->).
  rewrite Hoc. split; [done|]. split.
  { unfold Game_openCard, Card_show, sb. cbv zeta.
    cbn [set_openCards set_game game scoreboard add_timer].
    apply Scoreboard_start_running. }
  do 4 (split; [done|]).
  exists (mkTimer (nextTimerId (Scoreboard_start w)) (now w + 50) (ShowCard c)).
  split.
  { unfold Game_openCard, Card_show, add_timer. cbv zeta.
    cbn [set_openCards set_game timers]. rewrite Hnow.
    apply elem_of_enqueue. by left. }
  split; [done|]. split; [done|].
  intros v Hv. unfold run_timer. cbn [action set_page page].
  by apply Card_show_callback_shows.
Qed.

Lemma first_card_revealed_witness :
  let w := play ["anchor"; "bolt"] draw0 blank_page 0 in
  let w' := step w (CardClick 2) in
  openCards (game w') = [mkCard "bolt" (Some 2)] ∧
  is_Some (timerId (sb w')) ∧ moves (sb w') = moves (sb w) ∧ page w' = page w.
Proof.
  destruct (first_card_revealed ["anchor"; "bolt"] draw0 blank_page 0 [] 2 2
              (mkElem "fa fa-bolt" false false false 1)
              eq_refl eq_refl eq_refl eq_refl eq_refl)
    as (H1 & H2 & H3 & _ & _ & H6 & _).
  split; [exact H1|]. split; [exact H2|]. split; [exact H3 | exact H6].
Defined.

(** ** Play again *)

Lemma Game_handleRestart_modal (rnd : nat → nat) (w : World) :
  modalShown (page (Game_handleRestart rnd w)) = modalShown (page w).
Proof.
  destruct (Scoreboard_reset_game (set_page (each_card off_click (page w)) w))
    as (_ & _ & _ & _ & _ & _ & _ & _ & _ & Hmodal & _).
  unfold Game_handleRestart. cbv zeta. revert Hmodal.
  generalize (Scoreboard_reset (set_page (each_card off_click (page w)) w)).
  intros w2 Hmodal.
  cbn [set_page page each_card set_elems modalShown].
  rewrite display_deck_page. cbn [modalShown set_openCards set_matches set_game page].
  rewrite Hmodal. by destruct w as [g [es dc ss mt ttx md] q nid clock fin].
Qed.

(** X12: the play-again button flips the display of the modal and restarts
    the game: no card pending, no match, no move, three stars, the same
    cards in the order of a new shuffle, and every card of the page hidden,
    unmatched and with one click handler. *)
Theorem play_again_restarts (rnd : nat → nat) (w : World) :
  let w' := step w (YesClick rnd) in
  modalShown (page w') = negb (modalShown (page w)) ∧
  openCards (game w') = [] ∧
  matches (game w') = 0 ∧
  moves (sb w') = 0 ∧
  stars (sb w') = 3 ∧
  cards (deck (game w')) ≡ₚ cards (deck (game w)) ∧
  ∀ e, e ∈ deckChildren (page w') →
       ∃ el, elems (page w') !! e = Some el ∧ hidden_state el ∧
             hasMatch el = false ∧ clickHandlers el = 1.
Proof.
  intros w'. subst w'. cbn [step].
  destruct (Game_handlePlayAgain_game rnd w) as (Hd & Hm & Hoc & Hsb & _ & _).
  unfold sb. rewrite Hd, Hm, Hoc, Hsb.
  split.
  { unfold Game_handlePlayAgain. cbv zeta. rewrite Game_handleRestart_modal.
    by destruct w as [g [es dc ss mt ttx md] q nid clock fin]. }
  do 4 (split; [done|]).
  split; [apply shuffle_loop_Permutation|].
  unfold Game_handlePlayAgain. cbv zeta.
  destruct (Game_handleRestart_page rnd (Scoreboard_closeFinalScores w))
    as (w3 & Hpg & _).
  rewrite Hpg. cbn [each_card set_elems deckChildren].
  intros e He.
  destruct (displayed_cards_fresh rnd w3 e He) as (el & Hel & ? & ? & ? & ?).
  exists el. done.
Qed.

Lemma play_again_restarts_witness :
  let w := Game_finish (step one_pending (CardClick 3)) in
  let w' := step w (YesClick draw0) in
  modalShown (page w) = true ∧ modalShown (page w') = false ∧
  openCards (game w') = [] ∧ matches (game w') = 0 ∧ moves (sb w') = 0 ∧
  ∃ el, elems (page w') !! 5 = Some el ∧ hidden_state el ∧
        hasMatch el = false ∧ clickHandlers el = 1.
Proof.
  intros w w'.
  destruct (play_again_restarts draw0 w)
    as (H1 & H2 & H3 & H4 & _ & _ & Hcards).
  split; [by vm_compute|]. split; [by vm_compute|].
  split; [exact H2|]. split; [exact H3|]. split; [exact H4|].
  apply Hcards.
  replace (deckChildren (page (step w (YesClick draw0))))
    with [4; 5; 6; 7] by (vm_compute; reflexivity).
  right. by left.
Defined.

(** ** More on the shuffle *)

Lemma swap_lookup_other (i r j : nat) (cs : list Card) :
  j ≠ i → j ≠ r → swap i r cs !! j = cs !! j.
Proof.
  intros Hi Hr. unfold swap.
  destruct (cs !! i), (cs !! r); try done.
  by rewrite !list_lookup_insert_ne.
Qed.

Lemma swap_lookup_current (i r : nat) (cs : list Card) :
  i < length cs → r < length cs → swap i r cs !! i = cs !! r.
Proof.
  intros Hi Hr. unfold swap.
  destruct (lookup_lt_is_Some_2 cs i Hi) as [a Ha].
  destruct (lookup_lt_is_Some_2 cs r Hr) as [b Hb].
  rewrite Ha, Hb. destruct (decide (r = i)) as [->|Hne].
  - rewrite list_lookup_insert_eq by (by rewrite length_insert). congruence.
  - rewrite list_lookup_insert_ne by done.
    by rewrite list_lookup_insert_eq.
Qed.

(** The rounds of the loop leave the positions from [currentIndex] on as
    they are. *)
Lemma shuffle_loop_above (rnd : nat → nat) (currentIndex k j : nat)
    (cs : list Card) :
  currentIndex ≤ j → shuffle_loop rnd k currentIndex cs !! j = cs !! j.
Proof.
  revert k cs. induction currentIndex as [|ci IH]; intros k cs Hj; [done|].
  cbn [shuffle_loop]. rewrite IH by lia.
  pose proof (random_index_le (rnd k) ci).
  apply swap_lookup_other; lia.
Qed.

(** X13: the shuffle of a deck that has cards puts the card of the first
    draw, the one at position [rnd 0 mod n], at the last position; the
    later rounds do not move it. *)
Theorem shuffle_first_pick_last (rnd : nat → nat) (d : Deck) :
  0 < length (cards d) →
  cards (Deck_shuffle rnd d) !! (length (cards d) - 1)
  = cards d !! (rnd 0 mod length (cards d)).
Proof.
  intros Hn. unfold Deck_shuffle. cbn [cards].
  destruct (length (cards d)) as [|n] eqn:Hlen; [lia|].
  cbn [shuffle_loop]. replace (S n - 1) with n by lia.
  rewrite shuffle_loop_above by done.
  pose proof (random_index_le (rnd 0) n).
  apply swap_lookup_current; unfold random_index in *; lia.
Qed.

Lemma shuffle_first_pick_last_witness :
  0 < length (cards (Deck_new ["anchor"; "bolt"])) ∧
  cards (Deck_shuffle (λ _, 1) (Deck_new ["anchor"; "bolt"])) !! 3
  = cards (Deck_new ["anchor"; "bolt"]) !! 1.
Proof.
  assert (Hn : 0 < length (cards (Deck_new ["anchor"; "bolt"])))
    by (vm_compute; lia).
  split; [exact Hn|].
  exact (shuffle_first_pick_last (λ _, 1) (Deck_new ["anchor"; "bolt"]) Hn).
Defined.

Lemma shuffle_loop_identity (rnd : nat → nat) (n currentIndex k : nat)
    (cs : list Card) :
  k + currentIndex = n →
  (∀ k, k < n → rnd k mod (n - k) = n - 1 - k) →
  shuffle_loop rnd k currentIndex cs = cs.
Proof.
  intros Hk Hrnd. revert k cs Hk.
  induction currentIndex as [|ci IH]; intros k cs Hk; [done|].
  cbn [shuffle_loop]. unfold random_index.
  replace (S ci) with (n - k) by lia. rewrite Hrnd by lia.
  replace (n - 1 - k) with ci by lia.
  rewrite swap_same. apply IH. lia.
Qed.

(** X14: when every draw picks the position that is being filled, the
    shuffle leaves the deck as it is: the order before is one of the
    orders that the shuffle can give. *)
Theorem shuffle_identity_draws (rnd : nat → nat) (d : Deck) :
  (∀ k, k < length (cards d) →
        rnd k mod (length (cards d) - k) = length (cards d) - 1 - k) →
  Deck_shuffle rnd d = d.
Proof.
  intros Hrnd. unfold Deck_shuffle.
  rewrite (shuffle_loop_identity rnd (length (cards d))) by done.
  by destruct d.
Qed.

Lemma shuffle_identity_draws_witness :
  Deck_shuffle (λ k, 3 - k) (Deck_new ["anchor"; "bolt"])
  = Deck_new ["anchor"; "bolt"].
Proof.
  apply (shuffle_identity_draws (λ k, 3 - k) (Deck_new ["anchor"; "bolt"])).
  intros k Hk. change (length (cards (Deck_new ["anchor"; "bolt"]))) with 4 in *.
  destruct k as [|[|[|[|k]]]]; [reflexivity.. | lia].
Defined.

(** ** Timers that outlive a restart *)

Lemma timers_below_enqueue (bound : nat) (t : Timer) (q : list Timer) :
  (∀ e, timer_elem t = Some e → e < bound) →
  timers_below bound q → timers_below bound (enqueue t q).
Proof.
  unfold timers_below. rewrite !Forall_forall. intros Ht Hq x Hx.
  apply elem_of_enqueue in Hx as [->|Hx]; [done | by apply Hq].
Qed.

Lemma timers_below_filter (bound : nat) (P : Timer → Prop)
    `{∀ t, Decision (P t)} (q : list Timer) :
  timers_below bound q → timers_below bound (filter P q).
Proof.
  unfold timers_below. rewrite !Forall_forall. intros Hq x Hx.
  apply list_elem_of_filter in Hx as [_ Hx]. by apply Hq.
Qed.

Lemma timers_below_mono (bound bound' : nat) (q : list Timer) :
  bound ≤ bound' → timers_below bound q → timers_below bound' q.
Proof.
  unfold timers_below. rewrite !Forall_forall. intros Hle Hq x Hx e He.
  specialize (Hq x Hx e He). lia.
Qed.

Lemma timers_below_clear (bound : nat) (w : World) :
  timers_below bound (timers w) → timers_below bound (timers (clear_timerId w)).
Proof.
  unfold clear_timerId, clearInterval. destruct (timerId (sb w)); [|done].
  cbn [set_timers timers]. by apply timers_below_filter.
Qed.

Lemma timers_below_start (bound : nat) (w : World) :
  timers_below bound (timers w) →
  timers_below bound (timers (Scoreboard_start w)).
Proof.
  unfold Scoreboard_start. destruct (timerId (sb w)); [done|].
  cbn [set_scoreboard set_game add_timer timers]. by apply timers_below_enqueue.
Qed.

Lemma timers_below_hide (bound : nat) (cs : list Card) (w : World) :
  Forall (λ c, ∃ e, elem c = Some e ∧ e < bound) cs →
  timers_below bound (timers w) →
  timers_below bound (timers (foldl (λ w card, Card_hide card w) w cs)).
Proof.
  revert w. induction cs as [|c cs IH]; intros w Hcs Hw; [done|].
  apply Forall_cons in Hcs as [(e & He & Hlt) Hcs].
  cbn [foldl]. apply IH; [done|].
  unfold Card_hide, add_timer. cbn [timers].
  apply timers_below_enqueue; [|done].
  unfold timer_elem. cbn [action]. intros e'. rewrite He. by intros [= <-].
Qed.

Lemma Game_finish_timers (w : World) :
  timers (Game_finish w) = timers (clear_timerId w).
Proof. done. Qed.

Lemma Game_lockMatched_timers (bound : nat) (w : World) :
  timers_below bound (timers w) →
  timers_below bound (timers (Game_lockMatched w)).
Proof.
  intros Hw. unfold Game_lockMatched. cbv zeta.
  set (w1 := set_page _ (set_matches (matches (game w) + 1) w)).
  set (w5 := set_page _ (lock_open 1 (lock_open 0 w1))).
  assert (H5 : timers w5 = timers w).
  { assert (Hv : clock_view w5 = clock_view w).
    { subst w5 w1. change (clock_view (set_page ?p ?v)) with (clock_view v).
      by rewrite !clock_view_lock_open. }
    unfold clock_view in Hv. congruence. }
  destruct (_ <=? _); [|by rewrite H5].
  rewrite Game_finish_timers. apply timers_below_clear. by rewrite H5.
Qed.

Lemma store_evolves_length (es es' : list Elem) :
  store_evolves es es' → length es ≤ length es'.
Proof.
  intros Hev. destruct (decide (length es = 0)) as [|Hne]; [lia|].
  destruct (lookup_lt_is_Some_2 es (length es - 1) ltac:(lia)) as [el Hel].
  destruct (Hev _ _ Hel) as (el' & Hel' & _).
  apply lookup_lt_Some in Hel'. lia.
Qed.

Lemma Game_handleCardClick_length (target : nat) (w : World) :
  length (elems (page (Game_handleCardClick target w)))
  = length (elems (page w)).
Proof.
  unfold Game_handleCardClick.
  destruct (elems (page w) !! target) as [cardElem|]; [|done].
  destruct (hasOpen cardElem); [done|]. cbv zeta.
  set (opened := Game_openCard target cardElem (Scoreboard_start w)).
  assert (Hpg : page opened = page w).
  { subst opened.
    destruct (Game_openCard_game target cardElem (Scoreboard_start w))
      as (_ & _ & _ & _ & -> & _).
    by destruct (Scoreboard_start_game w) as (_ & _ & _ & _ & -> & _). }
  destruct (1 <? _); [|by rewrite Hpg].
  destruct (Scoreboard_incrementMoves_game
              (set_openCards []
                 (if Game_isMatched opened then Game_lockMatched opened
                  else Game_hideUnmatched opened)))
    as (_ & _ & _ & _ & -> & _).
  cbn [set_openCards set_game page].
  destruct (Game_isMatched opened).
  - rewrite Game_lockMatched_page, for_each_elem_length.
    set (w1 := set_page _ (set_matches (matches (game opened) + 1) opened)).
    assert (Hlock : ∀ i v, length (elems (page (lock_open i v)))
                           = length (elems (page v))).
    { intros i v. unfold lock_open, Card_lock.
      destruct (openCards (game v) !! i) as [c|]; [|done].
      destruct (elem c); [|done].
      cbn [set_page page set_elems elems]. by rewrite length_alter. }
    rewrite !Hlock. subst w1.
    cbn [set_page page each_card set_elems elems set_matches set_game].
    by rewrite for_each_elem_length, Hpg.
  - destruct (Game_hideUnmatched_game opened) as (_ & -> & _). by rewrite Hpg.
Qed.

Lemma Game_handleCardClick_timers (target : nat) (w : World) :
  open_on_page w →
  timers_below (length (elems (page w))) (timers w) →
  timers_below (length (elems (page w)))
               (timers (Game_handleCardClick target w)).
Proof.
  intros Hopen Hw. unfold Game_handleCardClick.
  destruct (elems (page w) !! target) as [cardElem|] eqn:Hel; [|done].
  destruct (hasOpen cardElem); [done|]. cbv zeta.
  set (opened := Game_openCard target cardElem (Scoreboard_start w)).
  assert (Hopened : timers_below (length (elems (page w))) (timers opened)).
  { subst opened. unfold Game_openCard, Card_show, add_timer. cbv zeta.
    cbn [set_openCards set_game timers].
    apply timers_below_enqueue; [|by apply timers_below_start].
    unfold timer_elem. cbn [action Card_fromElem elem]. intros e [= <-].
    by apply lookup_lt_Some in Hel. }
  destruct (Game_openCard_game target cardElem (Scoreboard_start w))
    as (_ & _ & Hoc & _).
  destruct (Scoreboard_start_game w) as (_ & _ & Hoc' & _).
  fold opened in Hoc.
  destruct (1 <? _); [|done].
  destruct (Scoreboard_incrementMoves_game
              (set_openCards []
                 (if Game_isMatched opened then Game_lockMatched opened
                  else Game_hideUnmatched opened)))
    as (_ & _ & _ & _ & _ & _ & -> & _).
  cbn [set_openCards set_game timers].
  destruct (Game_isMatched opened).
  - by apply Game_lockMatched_timers.
  - unfold Game_hideUnmatched. destruct (1 <? _); [|done].
    apply timers_below_hide; [|done].
    rewrite Hoc, Hoc'. apply Forall_app. split; [exact Hopen|].
    apply Forall_singleton. exists target. split; [done|].
    by apply lookup_lt_Some in Hel.
Qed.

Lemma step_timers (w : World) (ev : Event) :
  open_on_page w →
  timers_below (length (elems (page w))) (timers w) →
  timers_below (length (elems (page (step w ev)))) (timers (step w ev)).
Proof.
  intros Hopen Hw.
  apply (timers_below_mono (length (elems (page w))));
    [apply store_evolves_length, step_store_evolves|].
  destruct ev as [p|rnd|rnd| | |ms|]; cbn [step]; try done.
  - unfold click_card.
    destruct (deckChildren (page w) !! p) as [target|]; [|done].
    destruct (elems (page w) !! target) as [el|]; [|done].
    generalize (clickHandlers el). intros n.
    induction n as [|n IH]; [done|]. rewrite Nat.iter_succ.
    set (v := Nat.iter n (Game_handleCardClick target) w) in *.
    assert (Hv : open_on_page v ∧ length (elems (page v)) = length (elems (page w))).
    { subst v. clear IH. induction n as [|n [IHo IHl]]; [done|].
      rewrite Nat.iter_succ. split; [by apply Game_handleCardClick_on_page|].
      rewrite <- IHl. apply Game_handleCardClick_length. }
    destruct Hv as [Hvo Hvl]. rewrite <- Hvl.
    apply Game_handleCardClick_timers; [done | by rewrite Hvl].
  - rewrite Game_handleRestart_timers.
    destruct (Scoreboard_reset_clock (set_page (each_card off_click (page w)) w))
      as [-> _].
    by apply timers_below_clear.
  - unfold Game_handlePlayAgain. cbv zeta. rewrite Game_handleRestart_timers.
    destruct (Scoreboard_reset_clock
                (set_page (each_card off_click (page (Scoreboard_closeFinalScores w)))
                          (Scoreboard_closeFinalScores w)))
      as [-> _].
    by apply timers_below_clear.
  - destruct (timers w) as [|t q] eqn:Hq; [by rewrite Hq|].
    destruct (due t <=? now w); [|by rewrite Hq].
    apply Forall_cons in Hw as [Ht Hq'].
    unfold run_timer. destruct (action t) as [c|c|startTime]; try done.
    cbn [set_timers set_scoreboard set_game Scoreboard_updateTimeTaken set_page timers].
    by apply timers_below_enqueue.
Qed.

Lemma run_timers (evs : list Event) (w : World) :
  open_on_page w →
  timers_below (length (elems (page w))) (timers w) →
  timers_below (length (elems (page (run evs w)))) (timers (run evs w)).
Proof.
  unfold run. revert w.
  induction evs as [|ev evs IH]; intros w Hopen Hw; [done|].
  cbn [foldl]. apply IH; [by apply step_on_page | by apply step_timers].
Qed.

Lemma reached_timers (cardTypes : list string) (rnd : nat → nat) (p0 : Page)
    (t0 : nat) (evs : list Event) :
  let w := run evs (play cardTypes rnd p0 t0) in
  timers_below (length (elems (page w))) (timers w).
Proof.
  apply run_timers.
  - apply open_on_page_none, play_openCards.
  - replace (timers (play cardTypes rnd p0 t0)) with (@nil Timer) by reflexivity.
    apply Forall_nil_2.
Qed.

(** While only time passes, the timers that act on the first [bound]
    elements of the store leave the other elements alone. *)
Lemma time_step_keeps (bound : nat) (v : World) (ev : Event) :
  time_event ev →
  timers_below bound (timers v) →
  timers_below bound (timers (step v ev)) ∧
  deckChildren (page (step v ev)) = deckChildren (page v) ∧
  ∀ e, bound ≤ e → elems (page (step v ev)) !! e = elems (page v) !! e.
Proof.
  destruct ev as [p|rnd|rnd| | |ms|]; cbn [time_event step]; try done.
  intros _ Hv.
  destruct (timers v) as [|t q] eqn:Hq; [by rewrite Hq|].
  destruct (due t <=? now v); [|by rewrite Hq].
  apply Forall_cons in Hv as [Ht Hq'].
  unfold run_timer, timer_elem in *.
  destruct (action t) as [c|c|startTime].
  - split; [done|]. unfold Card_show_callback.
    destruct (elem c) as [e0|]; [|done].
    cbn [set_page set_timers page set_elems elems deckChildren].
    split; [done|]. intros e He. apply list_lookup_alter_ne.
    specialize (Ht e0 eq_refl). lia.
  - split; [done|]. unfold Card_hide_callback.
    destruct (elem c) as [e0|]; [|done].
    cbn [set_page set_timers page set_elems elems deckChildren].
    split; [done|]. intros e He. apply list_lookup_alter_ne.
    specialize (Ht e0 eq_refl). lia.
  - cbn [set_timers set_scoreboard set_game Scoreboard_updateTimeTaken set_page
         timers page].
    split; [by apply timers_below_enqueue | done].
Qed.

Lemma time_run_keeps (bound : nat) (evs : list Event) (v : World) :
  Forall time_event evs →
  timers_below bound (timers v) →
  deckChildren (page (run evs v)) = deckChildren (page v) ∧
  ∀ e, bound ≤ e → elems (page (run evs v)) !! e = elems (page v) !! e.
Proof.
  unfold run. revert v.
  induction evs as [|ev evs IH]; intros v Hevs Hv; [done|].
  apply Forall_cons in Hevs as [Hev Hevs]. cbn [foldl].
  destruct (time_step_keeps bound v ev Hev Hv) as (Hq & Hdc & Hes).
  destruct (IH (step v ev) Hevs Hq) as [Hdc' Hes'].
  split; [congruence|]. intros e He. by rewrite Hes', Hes.
Qed.

(** X15: a restart leaves the timers of the old game pending, but they act
    on the elements of the old cards only: in every state that the game
    reaches, after a restart the cards of the page stay exactly as the
    restart made them for as long as only time passes and timers fire. *)
Theorem restart_outlives_timers (cardTypes : list string) (rnd : nat → nat)
    (p0 : Page) (t0 : nat) (evs : list Event) (rnd' : nat → nat)
    (evs' : list Event) :
  Forall time_event evs' →
  let w := run evs (play cardTypes rnd p0 t0) in
  let w' := step w (RestartClick rnd') in
  deckChildren (page (run evs' w')) = deckChildren (page w') ∧
  ∀ e, e ∈ deckChildren (page w') →
       elems (page (run evs' w')) !! e = elems (page w') !! e.
Proof.
  intros Hevs w w'.
  assert (Hw : timers_below (length (elems (page w))) (timers w))
    by apply reached_timers.
  assert (Hw' : timers_below (length (elems (page w))) (timers w')).
  { subst w'. cbn [step]. rewrite Game_handleRestart_timers.
    destruct (Scoreboard_reset_clock (set_page (each_card off_click (page w)) w))
      as [-> _].
    by apply timers_below_clear. }
  destruct (time_run_keeps _ evs' w' Hevs Hw') as [Hdc Hes].
  split; [exact Hdc|]. intros e He. apply Hes.
  subst w'. cbn [step] in He.
  destruct (Game_handleRestart_store rnd' w) as (w3 & Hpg & _ & Hes3).
  rewrite Hpg, display_deck_page in He.
  cbn [each_card set_elems deckChildren] in He.
  apply elem_of_seq in He as [Hge _].
  by rewrite Hes3, for_each_elem_length in Hge.
Qed.

Lemma restart_outlives_timers_witness :
  let w := run [CardClick 0; CardClick 1]
               (play ["anchor"; "bolt"] draw0 blank_page 0) in
  let w' := step w (RestartClick draw0) in
  let w'' := run [Elapse 800; TimerFires; TimerFires; TimerFires; TimerFires] w' in
  timers w' ≠ [] ∧
  deckChildren (page w'') = deckChildren (page w') ∧
  elems (page w'') !! 4 = elems (page w') !! 4.
Proof.
  intros w w' w''.
  assert (Hevs : Forall time_event
                   [Elapse 800; TimerFires; TimerFires; TimerFires; TimerFires]).
  { repeat constructor. }
  destruct (restart_outlives_timers ["anchor"; "bolt"] draw0 blank_page 0
              [CardClick 0; CardClick 1] draw0 _ Hevs) as [Hdc Hes].
  split; [by vm_compute|]. split; [exact Hdc|].
  apply Hes.
  match goal with
  | |- _ ∈ ?l => replace l with [4; 5; 6; 7] by (vm_compute; reflexivity)
  end.
  by left.
Defined.

(** ** The markup of a card *)

Lemma length_append (x s : string) :
  String.length (x +:+ s) = String.length x + String.length s.
Proof. induction x as [|a x IH]; simpl; [done | congruence]. Qed.

Lemma append_inv_tail (x y s : string) : x +:+ s = y +:+ s → x = y.
Proof.
  intros Heq.
  assert (Hlen : String.length x = String.length y).
  { apply (f_equal String.length) in Heq.
    rewrite !length_append in Heq. lia. }
  revert y Heq Hlen. induction x as [|a x IH]; intros [|b y] Heq Hlen;
    try done.
  cbn in Heq, Hlen. injection Heq as -> Heq.
  f_equal. apply IH; [done | lia].
Qed.

(** X16: two cards have the same markup only when they have the same
    type: [toHtml] loses nothing of the type. *)
Theorem Card_toHtml_injective (c c' : Card) :
  Card_toHtml c = Card_toHtml c' → type c = type c'.
Proof.
  rewrite !Card_toHtml_prefix. intros Heq.
  apply (inj (String.append card_markup_prefix)) in Heq.
  apply (inj (String.append "fa fa-")) in Heq.
  by apply append_inv_tail in Heq.
Qed.

Lemma Card_toHtml_injective_witness :
  type (mkCard "leaf" (Some 3)) = type (Card_new "leaf").
Proof.
  apply (Card_toHtml_injective (mkCard "leaf" (Some 3)) (Card_new "leaf")).
  reflexivity.
Defined.

(** ** The end of a game *)


